(** * MiniGit: repository bootstrap and blob store

    A shallow embedding of [minigit_project.cpp]: the placeholder digest
    [generate_simple_hash], and the three operations of [class MiniGit]
    ([init], [save_blob], [read_blob]) over an explicit model of the
    part of the file system and of the two output streams they touch. *)

From Stdlib Require Import ZArith NArith Ascii String List Lia.
From stdpp Require Import base gmap strings pretty.

Local Open Scope string_scope.

(** ** Strings

    [std::string] is [String.string]; a byte is an [ascii]. *)

Module Str.

Definition newline : ascii := Ascii.ascii_of_nat 10.
Definition slash : ascii := "/"%char.
Definition dquote : ascii := Ascii.ascii_of_nat 34.
Definition backslash : ascii := Ascii.ascii_of_nat 92.

Definition is_newline (c : ascii) : bool := Ascii.eqb c newline.

(** [s.empty()] *)
Definition empty (s : string) : bool :=
  match s with "" => true | String _ _ => false end.

(** [s.pop_back()] on a non-empty string; the source guards the call with
    [!content.empty()], the empty case is never run. *)
Fixpoint pop_back (s : string) : string :=
  match s with
  | "" => ""
  | String c "" => ""
  | String c r => String c (pop_back r)
  end.

(** The last character, when there is one. *)
Fixpoint back (s : string) : option ascii :=
  match s with
  | "" => None
  | String c "" => Some c
  | String _ r => back r
  end.

Definition ends_with_newline (s : string) : bool :=
  match back s with Some c => is_newline c | None => false end.

Fixpoint replicate (n : nat) (c : ascii) : string :=
  match n with O => "" | S k => String c (replicate k c) end.

Fixpoint all (p : ascii -> bool) (s : string) : bool :=
  match s with "" => true | String c r => p c && all p r end.

Fixpoint mem (c : ascii) (s : string) : bool :=
  match s with "" => false | String d r => Ascii.eqb c d || mem c r end.

End Str.

(** ** Number formatting of the C++ library *)

(** [std::to_string] of a signed or unsigned integer: plain decimal. *)
Definition to_string (z : Z) : string := pretty z.

Definition hex_digit (d : N) : ascii :=
  match d with
  | 0 => "0" | 1 => "1" | 2 => "2" | 3 => "3" | 4 => "4" | 5 => "5"
  | 6 => "6" | 7 => "7" | 8 => "8" | 9 => "9" | 10 => "a" | 11 => "b"
  | 12 => "c" | 13 => "d" | 14 => "e" | _ => "f"
  end%char%N.

(** Digits of [n] in base 16, most significant first, pushed in front of
    [acc]; at least one digit is produced. [fuel] bounds the number of
    digits. *)
Fixpoint hex_go (fuel : nat) (n : N) (acc : string) : string :=
  let acc' := String (hex_digit (n mod 16)) acc in
  match fuel with
  | O => acc'
  | S f => if (n / 16 =? 0)%N then acc' else hex_go f (n / 16) acc'
  end.

(** [ss << std::hex << v] for an unsigned [v]: lowercase, no prefix. *)
Definition to_hex (n : N) : string := hex_go (N.size_nat n) n "".

(** [std::setw(w) << std::setfill(c)] before a value printed as [s]: pads on
    the left up to width [w], never cuts. *)
Definition setw_fill (w : nat) (c : ascii) (s : string) : string :=
  Str.replicate (w - String.length s) c ++ s.

(** ** The digest *)

(** [size_t] is taken 64 bits wide; a value is reduced modulo [2^64]. *)
Definition size_t_bits : N := 64.
Definition wrap_size_t (n : N) : N := (n mod 2 ^ size_t_bits)%N.

Section Hash.

(** [std::hash<std::string>] is the C++ library's, not this program's:
    any function to [size_t]. *)
Variable std_hash : string -> N.

Definition hasher (s : string) : N := wrap_size_t (std_hash s).

(** The body of [generate_simple_hash] once the clock has been read:
    [timestamp] is the number of whole seconds since the epoch. *)
Definition simple_hash_at (timestamp : Z) (content : string) : string :=
  let data_to_hash :=
    content ++ to_string timestamp ++ to_string (Z.of_N (hasher content)) in
  let content_hash := hasher data_to_hash in
  setw_fill 32 "0" (to_hex content_hash).

End Hash.

(** A concrete hash function to run the model with: FNV-1a, 64 bits. *)
Definition fnv1a_step (h : N) (c : ascii) : N :=
  wrap_size_t (N.lxor h (N_of_ascii c) * 1099511628211)%N.

Fixpoint fnv1a_from (h : N) (s : string) : N :=
  match s with
  | "" => h
  | String c r => fnv1a_from (fnv1a_step h c) r
  end.

Definition fnv1a (s : string) : N := fnv1a_from 14695981039346656037%N s.

(** ** The process environment

    The program sees the file system below the working directory, the
    system clock, and its two output streams. Paths are the literal strings
    the program builds ([".minigit/objects"], ...); the working directory is
    the empty path. *)

Inductive node : Type :=
| Dir
| File (content : string).

Inductive event : Type :=
| Cout (line : string)
| Cerr (line : string).

Record Proc : Type := mkProc {
  files : gmap string node;     (* what exists, by path *)
  readonly : gset string;       (* paths that may not be created or written *)
  cwd : string;                 (* [fs::current_path()] *)
  clock : Z;                    (* seconds since the epoch *)
  log : list event              (* lines printed so far, oldest first *)
}.

Definition set_files (f : gmap string node -> gmap string node) (w : Proc) : Proc :=
  mkProc (f (files w)) (readonly w) (cwd w) (clock w) (log w).

Definition add_log (e : event) (w : Proc) : Proc :=
  mkProc (files w) (readonly w) (cwd w) (clock w) (log w ++ [e]).

(** The directory part of a path: all before its last slash. *)
Fixpoint parent_path (p : string) : string :=
  match p with
  | "" => ""
  | String c r => if Str.mem Str.slash r then String c (parent_path r) else ""
  end.

Definition is_dir (p : string) (w : Proc) : bool :=
  match files w !! p with Some Dir => true | _ => false end.

Definition parent_is_dir (p : string) (w : Proc) : bool :=
  Str.empty (parent_path p) || is_dir (parent_path p) w.

(** A new entry can be made at [p], or the file at [p] rewritten. *)
Definition writable (p : string) (w : Proc) : bool :=
  parent_is_dir p w && negb (bool_decide (p ∈ readonly w)).

(** ** Commands

    A command runs in a [Proc] and either yields a value, leaves the
    enclosing [void] function by [return;], or throws. *)

Inductive result (A : Type) : Type :=
| Value (a : A)
| Returned
| Thrown (what : string).
Arguments Value {A} a.
Arguments Returned {A}.
Arguments Thrown {A} what.

Definition Cmd (A : Type) : Type := Proc -> result A * Proc.

#[global] Instance Cmd_ret : MRet Cmd := fun A a w => (Value a, w).

#[global] Instance Cmd_bind : MBind Cmd := fun A B k m w =>
  match m w with
  | (Value a, w') => k a w'
  | (Returned, w') => (Returned, w')
  | (Thrown e, w') => (Thrown e, w')
  end.

Definition gets {A : Type} (f : Proc -> A) : Cmd A := fun w => (Value (f w), w).
Definition modify (f : Proc -> Proc) : Cmd unit := fun w => (Value tt, f w).
Definition return_ : Cmd unit := fun w => (Returned, w).
Definition throw {A : Type} (what : string) : Cmd A := fun w => (Thrown what, w).

(** [std::cout << s << std::endl] and [std::cerr << s << std::endl] *)
Definition cout (s : string) : Cmd unit := modify (add_log (Cout s)).
Definition cerr (s : string) : Cmd unit := modify (add_log (Cerr s)).

(** [os << path]: a path is printed between double quotes, with a backslash
    before every double quote and backslash in it. *)
Fixpoint escape (s : string) : string :=
  match s with
  | "" => ""
  | String c r =>
      if Ascii.eqb c Str.dquote || Ascii.eqb c Str.backslash
      then String Str.backslash (String c (escape r))
      else String c (escape r)
  end.

Definition quoted (s : string) : string :=
  String Str.dquote (escape s ++ String Str.dquote "").

(** *** [std::filesystem] *)

Definition fs_exists (p : string) : Cmd bool :=
  gets (fun w => match files w !! p with Some _ => true | None => false end).

Definition fs_is_directory (p : string) : Cmd bool := gets (is_dir p).

Definition current_path : Cmd string := gets cwd.

Section Mkdir.

(** How a directory that cannot be made shows in the program. The
    overload of [fs::create_directory] the source calls raises
    [filesystem_error] ([true]). The source tests the value returned, as
    if a failure gave [false]; with [false] here the model follows that
    reading, so that the failure branches of [init] are covered too. *)
Variable mkdir_throws : bool.

Definition mkdir_failed (p : string) : Cmd bool :=
  if mkdir_throws then throw p else mret false.

(** [fs::create_directory(p)]: [true] when the directory was made,
    [false] without an error when [p] is a directory already. *)
Definition create_directory (p : string) : Cmd bool := fun w =>
  match files w !! p with
  | Some Dir => (Value false, w)
  | Some (File _) => mkdir_failed p w
  | None =>
      if writable p w then (Value true, set_files <[p := Dir]> w)
      else mkdir_failed p w
  end.

End Mkdir.

(** *** [std::ofstream] and [std::ifstream] *)

(** Whether [std::ofstream f(p)] opens: [p] is no directory, lies in one,
    and may be written. *)
Definition opens_for_writing (p : string) (w : Proc) : bool :=
  negb (is_dir p w) && writable p w.

(** [std::ofstream f(p)]: opens for writing, emptying the file or making a
    new one; the value is [f.is_open()]. *)
Definition ofstream_open (p : string) : Cmd bool := fun w =>
  if opens_for_writing p w then (Value true, set_files <[p := File ""]> w)
  else (Value false, w).

Definition append_to (s : string) (n : node) : node :=
  match n with
  | Dir => Dir
  | File c => File (c ++ s)
  end.

(** [f << s] on the open stream for [p]. *)
Definition ofstream_write (p s : string) : Cmd unit :=
  modify (set_files (alter (append_to s) p)).

(** [f << s; f.close()] when the write may fail after the open succeeded (a
    disk that is full): with [goes_through] the bytes reach the file, else
    the file stays as the open left it. The stream then is in a failed
    state, which shows only to a program that looks at it. *)
Definition ofstream_write_when (goes_through : bool) (p s : string) : Cmd unit :=
  if goes_through then ofstream_write p s else mret tt.

(** [std::ifstream f(p)]: the bytes left to read when the open succeeds. A
    regular file opens with its content. A directory opens too, as
    [fopen] has it on Linux, and every read from it fails: nothing is left
    to read. Nothing else opens. *)
Definition ifstream_open (p : string) : Cmd (option string) :=
  gets (fun w =>
    match files w !! p with
    | Some (File c) => Some c
    | Some Dir => Some ""
    | None => None
    end).

(** The characters before the first newline, and what follows it. *)
Fixpoint take_line (s : string) : string * string :=
  match s with
  | "" => ("", "")
  | String c r =>
      if Str.is_newline c then ("", r)
      else let '(l, r') := take_line r in (String c l, r')
  end.

(** [std::getline(in, line)]: fails when nothing is left to read, else gives
    the next line without its newline and the rest of the stream. *)
Definition getline (infile : string) : option (string * string) :=
  match infile with
  | "" => None
  | String _ _ => Some (take_line infile)
  end.

Definition endl : string := String Str.newline "".

(** ** The program *)

Section MiniGit.

Variable std_hash : string -> N.
Variable mkdir_throws : bool.

(** [generate_simple_hash(content)]: reads the clock, then hashes. *)
Definition generate_simple_hash (content : string) : Cmd string :=
  timestamp ← gets clock;
  mret (simple_hash_at std_hash timestamp content).

(** The constructor sets [minigit_dir_name_] once and for all. *)
Definition minigit_dir_name : string := ".minigit".

(** The paths [init] builds in its local variables. *)
Definition objects_path : string := minigit_dir_name ++ "/objects".
Definition refs_path : string := minigit_dir_name ++ "/refs".
Definition heads_path : string := refs_path ++ "/heads".
Definition head_path : string := minigit_dir_name ++ "/HEAD".
Definition main_branch_path : string := heads_path ++ "/main".

(** [init], lines 39 to 51: the repository directory itself. *)
Definition init_root : Cmd unit :=
  present ← fs_exists minigit_dir_name;
  isdir ← fs_is_directory minigit_dir_name;
  if present && isdir then
    here ← current_path;
    cout ("Reinitializing existing MiniGit repository in " ++ quoted here)
  else
    created ← create_directory mkdir_throws minigit_dir_name;
    if negb created then
      cerr ("Error: Could not create directory " ++ minigit_dir_name);;
      return_
    else cout ("Created directory: " ++ minigit_dir_name).

(** [init], lines 54 to 61, 64 to 71 and 74 to 81: the same block for
    [objects], [refs] and [refs/heads]:
    <<
    if (!fs::exists(path)) {
        if (!fs::create_directory(path)) { std::cerr << ...; return; }
        std::cout << "Created directory: " << path << std::endl;
    }
    >> *)
Definition ensure_directory (path : string) : Cmd unit :=
  present ← fs_exists path;
  if negb present then
    created ← create_directory mkdir_throws path;
    if negb created then
      cerr ("Error: Could not create directory " ++ path);;
      return_
    else cout ("Created directory: " ++ path)
  else mret tt.

(** [init], lines 85 to 93: the HEAD file. *)
Definition init_head : Cmd unit :=
  head_is_open ← ofstream_open head_path;
  if (head_is_open : bool) then
    ofstream_write head_path ("ref: refs/heads/main" ++ endl);;
    cout "Initialized HEAD to point to refs/heads/main"
  else cerr "Error: Could not create HEAD file.".

(** [init], lines 96 to 103: the file of the [main] branch. *)
Definition init_main_branch : Cmd unit :=
  main_is_open ← ofstream_open main_branch_path;
  if (main_is_open : bool) then
    cout "Created initial 'main' branch reference file."
  else cerr "Error: Could not create main branch file.".

Definition init : Cmd unit :=
  cout "Initializing MiniGit repository...";;
  init_root;;
  ensure_directory objects_path;;
  ensure_directory refs_path;;
  ensure_directory heads_path;;
  init_head;;
  init_main_branch;;
  cout "MiniGit repository initialized successfully!".

Definition save_blob (file_content : string) : Cmd string :=
  hash ← generate_simple_hash file_content;
  let blob_path := minigit_dir_name ++ "/objects/" ++ hash in
  outfile_is_open ← ofstream_open blob_path;
  if (outfile_is_open : bool) then
    ofstream_write blob_path file_content;;
    mret hash
  else
    cerr ("Error: Could not save blob to " ++ blob_path);;
    mret "".

(** [save_blob], lines 111 to 125, with the outcome of the write of line
    117 as a parameter. The code tests [outfile.is_open()] and never the
    state of the stream after [<<] or [close()]: after a write that failed
    it goes on as after one that went through. [save_blob] above is the
    run in which the write goes through. *)
Definition save_blob_when (write_goes_through : bool) (file_content : string)
  : Cmd string :=
  hash ← generate_simple_hash file_content;
  let blob_path := minigit_dir_name ++ "/objects/" ++ hash in
  outfile_is_open ← ofstream_open blob_path;
  if (outfile_is_open : bool) then
    ofstream_write_when write_goes_through blob_path file_content;;
    mret hash
  else
    cerr ("Error: Could not save blob to " ++ blob_path);;
    mret "".

(** The loop of [read_blob]:
    [while (std::getline(infile, line)) content += line + "\n";]
    Every round consumes at least one character of [infile]; [fuel]
    bounds the number of rounds. *)
Fixpoint read_lines (fuel : nat) (infile content : string) : string :=
  match fuel with
  | O => content
  | S fuel' =>
      match getline infile with
      | Some (line, rest) => read_lines fuel' rest (content ++ line ++ endl)
      | None => content
      end
  end.

Definition read_blob (hash : string) : Cmd string :=
  let blob_path := minigit_dir_name ++ "/objects/" ++ hash in
  infile ← ifstream_open blob_path;
  match infile with
  | Some bytes =>
      let content := read_lines (String.length bytes) bytes "" in
      let content :=
        if negb (Str.empty content) then Str.pop_back content else content in
      mret content
  | None =>
      cerr ("Error: Could not read blob from " ++ blob_path);;
      mret ""
  end.

End MiniGit.

(** ** The command line *)

Section Main.

Variable std_hash : string -> N.
Variable mkdir_throws : bool.

(** Seconds the clock moves on before the second and before the third
    [save_blob] of [test_blob]. *)
Variables pause2 pause3 : Z.

(** A call of a [void] member function: its [return;] ends the call, not
    the caller. *)
Definition call (body : Cmd unit) : Cmd unit := fun w =>
  match body w with
  | (Returned, w') => (Value tt, w')
  | run => run
  end.

Definition clock_advances (seconds : Z) : Cmd unit :=
  modify (fun w =>
    mkProc (files w) (readonly w) (cwd w) (clock w + seconds)%Z (log w)).

(** The character the source writes as a backslash and a double quote. *)
Definition dq : string := String Str.dquote "".

(** [main], lines 172 to 177, 181 to 186 and 190 to 195: a blob is saved,
    read back by its hash and compared; the value is the hash. *)
Definition test_one_blob (test_content : string) : Cmd string :=
  hash ← save_blob std_hash test_content;
  cout ("Content: " ++ dq ++ test_content ++ dq ++ ", Saved as hash: " ++ hash);;
  read_content ← read_blob hash;
  cout ("Read content for hash " ++ hash ++ ": " ++ dq ++ read_content ++ dq);;
  cout ("Content matches: "
        ++ (if String.eqb test_content read_content then "true" else "false"));;
  mret hash.

(** [main], lines 171 to 196: the command [test_blob]. A newline written
    alone is an empty line. *)
Definition test_blob : Cmd unit :=
  cout "--- Testing Blob Storage ---";;
  hash1 ← test_one_blob "Hello, MiniGit!";
  cout "";;
  clock_advances pause2;;
  hash2 ← test_one_blob "This is some different content for a second blob.";
  cout "";;
  clock_advances pause3;;
  hash3 ← test_one_blob "Hello, MiniGit!";
  cout ("Hash of identical content (with timestamp influence): "
        ++ (hash1 : string) ++ " vs " ++ (hash3 : string)).

(** [main]: [args] is [argv] without the program name; the value is the
    exit code. An exception nobody catches ends the program. *)
Definition main (args : list string) : Cmd Z :=
  match args with
  | [] =>
      cout "Usage: minigit <command> [arguments]";;
      cout "Available commands: init, test_blob";;
      mret 1%Z
  | command :: _ =>
      (if String.eqb command "init" then call (init mkdir_throws)
       else if String.eqb command "test_blob" then test_blob
       else cout ("Unknown command: " ++ command));;
      mret 0%Z
  end.

End Main.

(** *** Reading off a run *)

Definition initial (fs : gmap string node) : Proc := mkProc fs ∅ "/work" 0 [].

Definition errors (w : Proc) : list string :=
  omap (fun e => match e with Cerr s => Some s | Cout _ => None end) (log w).

(** The repository [init] makes in an empty working directory. *)
Definition fresh_repository : Proc := snd (init true (initial ∅)).

(** A repository in which the branch already records a commit. *)
Definition repository_with_commit : Proc :=
  set_files <[main_branch_path := File "0000000000000000783ba99a123c5e13"]>
    fresh_repository.

(** A repository whose HEAD points at another branch. *)
Definition repository_on_feature : Proc :=
  set_files <[head_path := File ("ref: refs/heads/feature" ++ endl)]>
    fresh_repository.

(** A repository in which a directory sits where HEAD should be. *)
Definition repository_with_head_directory : Proc :=
  set_files <[head_path := Dir]> fresh_repository.

(** A repository directory in which [objects] may not be made. *)
Definition protected_objects : Proc :=
  mkProc {[minigit_dir_name := Dir]} {[objects_path]} "/work" 0 [].


(** The path of an object, for the statements below. *)
Definition blob_path (hash : string) : string :=
  minigit_dir_name ++ "/objects/" ++ hash.

(** Two lines of text, each ended by a newline, and a repository that
    stores them under the digest of 32 zeros. *)
Definition two_lines : string := "line one" ++ endl ++ "line two" ++ endl.

Definition repository_with_text : Proc :=
  set_files <[blob_path (Str.replicate 32 "0") := File two_lines]>
    fresh_repository.

(** What HEAD holds after [init] wrote it: one line. *)
Definition head_line : string := "ref: refs/heads/main" ++ endl.

(** ** Vocabulary of the statements *)

Definition is_lower_hex (c : ascii) : bool := Str.mem c "0123456789abcdef".

(** A digest in the format of the object store. *)
Definition well_formed_digest (d : string) : Prop :=
  String.length d = 32 /\ Str.all is_lower_hex d = true.

(** A name that [objects/<name>] looks up in the directory [objects]
    itself: it has no slash, and is not empty, [.] or [..], which stand for
    [objects] and its parent. Paths in [Proc] are the literal strings of the
    program; it is for such names that the string [objects/<name>] and the
    file the system opens are the same thing. *)
Definition is_entry_name (name : string) : Prop :=
  Str.mem Str.slash name = false /\ name <> "" /\ name <> "." /\ name <> "..".

(** [s] without its last character when that is a newline. *)
Definition strip_newline (s : string) : string :=
  if Str.ends_with_newline s then Str.pop_back s else s.

(** [s] with a newline after its last line when that has none. *)
Definition terminated (s : string) : string :=
  if Str.empty s then ""
  else if Str.ends_with_newline s then s else s ++ endl.

(** The number a string of lowercase hexadecimal digits writes. *)
Definition hex_digit_value (c : ascii) : N :=
  let n := N_of_ascii c in
  if (n <? 58)%N then (n - 48)%N else (n - 87)%N.

Fixpoint hex_value_from (acc : N) (s : string) : N :=
  match s with
  | "" => acc
  | String c r => hex_value_from (16 * acc + hex_digit_value c)%N r
  end.

Definition hex_value (s : string) : N := hex_value_from 0 s.

(** *** Vocabulary for [init] *)

(** The outcome of a block whose directory could not be made: an uncaught
    exception, or the [return;] after the line on [std::cerr]. *)
Definition mkdir_failure (mkdir_throws : bool) (p : string) (w : Proc)
  : result unit * Proc :=
  if mkdir_throws then (Thrown p, w)
  else (Returned, add_log (Cerr ("Error: Could not create directory " ++ p)) w).

(** [c] never changes what is at path [q]. *)
Definition keeps {A : Type} (q : string) (c : Cmd A) : Prop :=
  forall w, files (snd (c w)) !! q = files w !! q.

(** [c] always runs to its end. *)
Definition total {A : Type} (c : Cmd A) : Prop :=
  forall w, exists a, fst (c w) = Value a.

(** A run of [c] that does not reach its end stopped on a directory [q] that
    could not be made: by an exception naming [q], or by [return;] right
    after the line about [q] on [std::cerr]. *)
Definition stops_on_mkdir {A : Type} (mkdir_throws : bool) (c : Cmd A) : Prop :=
  forall w, (forall a, fst (c w) <> Value a) ->
    exists q,
      if mkdir_throws then fst (c w) = Thrown q
      else fst (c w) = Returned /\
           last (log (snd (c w))) =
             Some (Cerr ("Error: Could not create directory " ++ q)).

(** From [w] to [w'] nothing was removed, no directory was replaced, no
    permission changed and no error line was taken back. *)
Definition grows (w w' : Proc) : Prop :=
  readonly w' = readonly w /\
  (forall q, files w !! q = Some Dir -> files w' !! q = Some Dir) /\
  (forall q, is_Some (files w !! q) -> is_Some (files w' !! q)) /\
  length (errors w) <= length (errors w').

(** The directory [p] is not there and cannot be made: [p] is protected, or
    a regular file sits where its parent directory should be. *)
Definition blocked (p : string) (w : Proc) : Prop :=
  files w !! p = None /\
  (p ∈ readonly w \/ exists c, files w !! parent_path p = Some (File c)).

(** The states a run of [init] that reaches its end goes through, one per
    block. *)
Inductive passes (mkdir_throws : bool) (w w' : Proc) : Prop :=
| Passes (at_root at_objects at_refs at_heads at_head at_main at_end : Proc)
    (pass_start : at_root = add_log (Cout "Initializing MiniGit repository...") w)
    (pass_root : init_root mkdir_throws at_root = (Value tt, at_objects))
    (pass_objects :
       ensure_directory mkdir_throws objects_path at_objects = (Value tt, at_refs))
    (pass_refs :
       ensure_directory mkdir_throws refs_path at_refs = (Value tt, at_heads))
    (pass_heads :
       ensure_directory mkdir_throws heads_path at_heads = (Value tt, at_head))
    (pass_head : init_head at_head = (Value tt, at_main))
    (pass_main : init_main_branch at_main = (Value tt, at_end))
    (pass_end :
       w' = add_log (Cout "MiniGit repository initialized successfully!") at_end).

(** [c] leaves every entry that is there as it is. *)
Definition keeps_present {A : Type} (c : Cmd A) : Prop :=
  forall w q, is_Some (files w !! q) -> files (snd (c w)) !! q = files w !! q.

(** The directories of [init], in the order it handles them. *)
Definition init_directories : list string :=
  [minigit_dir_name; objects_path; refs_path; heads_path].

Fixpoint before_in (p : string) (l : list string) : list string :=
  match l with
  | [] => []
  | q :: l' => if String.eqb q p then [] else q :: before_in p l'
  end.

(** The directories [init] handles before it comes to [p]. *)
Definition made_before (p : string) : list string := before_in p init_directories.

(** [init] up to the block of [objects], of [refs], of [refs/heads], and
    from the HEAD file on. *)
Definition before_objects (mkdir_throws : bool) : Cmd unit :=
  cout "Initializing MiniGit repository...";;
  init_root mkdir_throws.

Definition before_refs (mkdir_throws : bool) : Cmd unit :=
  before_objects mkdir_throws;;
  ensure_directory mkdir_throws objects_path.

Definition before_heads (mkdir_throws : bool) : Cmd unit :=
  before_refs mkdir_throws;;
  ensure_directory mkdir_throws refs_path.

Definition init_files : Cmd unit :=
  init_head;;
  init_main_branch;;
  cout "MiniGit repository initialized successfully!".


(** A run of [init] reached its end and printed nothing on [std::cerr]. *)
Definition init_succeeded (w : Proc) (run : result unit * Proc) : Prop :=
  fst run = Value tt /\ errors (snd run) = errors w.

(** *** Vocabulary for the further properties *)

(** What [generate_simple_hash] hands to the hash function. *)
Definition data_to_hash (std_hash : string -> N) (timestamp : Z) (content : string)
  : string :=
  content ++ to_string timestamp ++ to_string (Z.of_N (hasher std_hash content)).

(** The six paths [init] deals with. *)
Definition init_paths : list string :=
  init_directories ++ [head_path; main_branch_path].

(** A working directory in which [init] finds none of its paths and may
    make them all. *)
Definition vacant (w : Proc) : Prop :=
  forall q, q ∈ init_paths -> files w !! q = None /\ q ∉ readonly w.

(** A repository [init] can go through again: the directories are there,
    HEAD and the branch file can be opened for writing. *)
Definition initialised (w : Proc) : Prop :=
  files w !! minigit_dir_name = Some Dir /\
  is_Some (files w !! objects_path) /\
  is_Some (files w !! refs_path) /\
  files w !! heads_path = Some Dir /\
  opens_for_writing head_path w = true /\
  opens_for_writing main_branch_path w = true.

(** The repository directory cannot be entered nor made: a regular file has
    its name, or it is absent and protected. *)
Definition root_blocked (w : Proc) : Prop :=
  (exists c, files w !! minigit_dir_name = Some (File c)) \/
  (files w !! minigit_dir_name = None /\ minigit_dir_name ∈ readonly w).

(** An object store in which every digest can be written. *)
Definition store_usable (w : Proc) : Prop :=
  files w !! objects_path = Some Dir /\
  forall h, Str.mem Str.slash h = false ->
    files w !! blob_path h <> Some Dir /\ blob_path h ∉ readonly w.

(** The lines [test_blob] prints for one blob. *)
Definition blob_report (content hash read_content : string) (matches : bool)
  : list event :=
  [Cout ("Content: " ++ dq ++ content ++ dq ++ ", Saved as hash: " ++ hash);
   Cout ("Read content for hash " ++ hash ++ ": " ++ dq ++ read_content ++ dq);
   Cout ("Content matches: " ++ (if matches then "true" else "false"))].

(** What a first [init] prints, and the state it leaves, in a vacant
    working directory. *)
Definition first_init_lines : list event :=
  [Cout "Initializing MiniGit repository...";
   Cout "Created directory: .minigit";
   Cout "Created directory: .minigit/objects";
   Cout "Created directory: .minigit/refs";
   Cout "Created directory: .minigit/refs/heads";
   Cout "Initialized HEAD to point to refs/heads/main";
   Cout "Created initial 'main' branch reference file.";
   Cout "MiniGit repository initialized successfully!"].

Definition made_repository (w : Proc) : Proc :=
  mkProc
    (<[main_branch_path := File ""]>
       (<[head_path := File head_line]>
          (<[heads_path := Dir]>
             (<[refs_path := Dir]>
                (<[objects_path := Dir]>
                   (<[minigit_dir_name := Dir]> (files w)))))))
    (readonly w) (cwd w) (clock w) (log w ++ first_init_lines).

(** What [init] prints, and the state it leaves, in a repository. *)
Definition reinit_lines (w : Proc) : list event :=
  [Cout "Initializing MiniGit repository...";
   Cout ("Reinitializing existing MiniGit repository in " ++ quoted (cwd w));
   Cout "Initialized HEAD to point to refs/heads/main";
   Cout "Created initial 'main' branch reference file.";
   Cout "MiniGit repository initialized successfully!"].

Definition reinitialised (w : Proc) : Proc :=
  mkProc
    (<[main_branch_path := File ""]> (<[head_path := File head_line]> (files w)))
    (readonly w) (cwd w) (clock w) (log w ++ reinit_lines w).

(** [c] leaves every entry that is there as it is, those at [spared]
    apart. *)
Definition alters_only {A : Type} (spared : list string) (c : Cmd A) : Prop :=
  forall w q, q ∉ spared -> is_Some (files w !! q) ->
    files (snd (c w)) !! q = files w !! q.

(** The state after [test_blob] dealt with one blob that was stored under
    [hash], and after one that could not be stored. *)
Definition stored (content hash : string) (w : Proc) : Proc :=
  mkProc (<[blob_path hash := File content]> (files w))
    (readonly w) (cwd w) (clock w)
    (log w ++ blob_report content hash (strip_newline content)
                (String.eqb content (strip_newline content))).

Definition failed_blob_report (content hash : string) : list event :=
  [Cerr ("Error: Could not save blob to " ++ blob_path hash);
   Cout ("Content: " ++ dq ++ content ++ dq ++ ", Saved as hash: ");
   Cerr ("Error: Could not read blob from " ++ blob_path "");
   Cout ("Read content for hash : " ++ dq ++ dq);
   Cout ("Content matches: " ++ (if String.eqb content "" then "true" else "false"))].

Definition not_stored (content hash : string) (w : Proc) : Proc :=
  mkProc (files w) (readonly w) (cwd w) (clock w)
    (log w ++ failed_blob_report content hash).

Definition later (seconds : Z) (w : Proc) : Proc :=
  mkProc (files w) (readonly w) (cwd w) (clock w + seconds)%Z (log w).

(** The two contents of [test_blob]. *)
Definition test_content1 : string := "Hello, MiniGit!".
Definition test_content2 : string :=
  "This is some different content for a second blob.".

(** What [test_blob] prints when the three blobs are stored under [h1],
    [h2] and [h3]. *)
Definition test_blob_lines (h1 h2 h3 : string) : list event :=
  [Cout "--- Testing Blob Storage ---"]
  ++ blob_report test_content1 h1 test_content1 true
  ++ [Cout ""]
  ++ blob_report test_content2 h2 test_content2 true
  ++ [Cout ""]
  ++ blob_report test_content1 h3 test_content1 true
  ++ [Cout ("Hash of identical content (with timestamp influence): "
            ++ h1 ++ " vs " ++ h3)].

(** What [test_blob] prints when none of the three blobs can be stored. *)
Definition failed_test_blob_lines (h1 h2 h3 : string) : list event :=
  [Cout "--- Testing Blob Storage ---"]
  ++ failed_blob_report test_content1 h1
  ++ [Cout ""]
  ++ failed_blob_report test_content2 h2
  ++ [Cout ""]
  ++ failed_blob_report test_content1 h3
  ++ [Cout "Hash of identical content (with timestamp influence):  vs "].

(** ** Strings: lemmas *)

Module StrFacts.

Lemma app_cons (c : ascii) (s t : string) : String c s ++ t = String c (s ++ t).
Proof. reflexivity. Qed.

Lemma app_nil_l (t : string) : "" ++ t = t.
Proof. reflexivity. Qed.

Ltac by_induction s :=
  induction s as [|? s IH]; rewrite ?app_nil_l, ?app_cons; simpl;
  rewrite ?IH; try reflexivity.

Lemma length_app (s t : string) :
  String.length (s ++ t) = String.length s + String.length t.
Proof. by_induction s. Qed.

Lemma app_nil_r (s : string) : s ++ "" = s.
Proof. by_induction s. Qed.

Lemma app_assoc (s t u : string) : (s ++ t) ++ u = s ++ (t ++ u).
Proof. by_induction s. Qed.

Lemma length_replicate (n : nat) (c : ascii) :
  String.length (Str.replicate n c) = n.
Proof. induction n as [|n IH]; simpl; [reflexivity | now rewrite IH]. Qed.

Lemma all_app (p : ascii -> bool) (s t : string) :
  Str.all p (s ++ t) = Str.all p s && Str.all p t.
Proof. by_induction s. now destruct (p a). Qed.

Lemma all_replicate (p : ascii -> bool) (n : nat) (c : ascii) :
  p c = true -> Str.all p (Str.replicate n c) = true.
Proof. intros Hc. induction n as [|n IH]; simpl; [reflexivity | now rewrite Hc, IH]. Qed.

Lemma mem_app (c : ascii) (s t : string) :
  Str.mem c (s ++ t) = Str.mem c s || Str.mem c t.
Proof. by_induction s. now destruct (Ascii.eqb c a). Qed.

Lemma empty_true (s : string) : Str.empty s = true -> s = "".
Proof. now destruct s. Qed.

Lemma pop_back_snoc (s : string) (c : ascii) :
  Str.pop_back (s ++ String c "") = s.
Proof.
  induction s as [|d s IH]; [reflexivity|].
  rewrite app_cons. simpl. rewrite IH.
  destruct s; [reflexivity | now rewrite app_cons].
Qed.

Lemma back_snoc (s : string) (c : ascii) : Str.back (s ++ String c "") = Some c.
Proof.
  induction s as [|d s IH]; [reflexivity|].
  rewrite app_cons. simpl. rewrite IH.
  destruct s; [reflexivity | now rewrite app_cons].
Qed.

Lemma back_cons (c : ascii) (s : string) :
  s <> "" -> Str.back (String c s) = Str.back s.
Proof. now destruct s. Qed.

Lemma ends_with_newline_cons (c : ascii) (s : string) :
  s <> "" -> Str.ends_with_newline (String c s) = Str.ends_with_newline s.
Proof. intros H. unfold Str.ends_with_newline. now rewrite back_cons. Qed.

Lemma ends_with_newline_endl (s : string) :
  Str.ends_with_newline (s ++ endl) = true.
Proof. unfold Str.ends_with_newline, endl. now rewrite back_snoc. Qed.

End StrFacts.

(** ** The digest format *)

Section HexFacts.

Lemma hex_digit_lower (d : N) : is_lower_hex (hex_digit d) = true.
Proof.
  destruct d as [|p]; [reflexivity|].
  do 4 (destruct p as [p|p|]; try reflexivity).
Qed.

Lemma hex_go_all (fuel : nat) : forall (n : N) (acc : string),
  Str.all is_lower_hex acc = true ->
  Str.all is_lower_hex (hex_go fuel n acc) = true.
Proof.
  induction fuel as [|f IH]; intros n acc Hacc; simpl.
  - now rewrite hex_digit_lower.
  - destruct (n / 16 =? 0)%N.
    + simpl. now rewrite hex_digit_lower.
    + apply IH. simpl. now rewrite hex_digit_lower.
Qed.

(** A number below [16^k] prints with at most [k] digits, whatever the
    fuel. *)
Lemma hex_go_length (fuel : nat) : forall (k : nat) (n : N) (acc : string),
  (n < 16 ^ N.of_nat (S k))%N ->
  String.length (hex_go fuel n acc) <= S k + String.length acc.
Proof.
  induction fuel as [|f IH]; intros k n acc Hn; simpl hex_go.
  - simpl. lia.
  - destruct (N.eqb_spec (n / 16) 0) as [Hz|Hz].
    + simpl. lia.
    + destruct k as [|k].
      * exfalso. apply Hz. apply N.div_small. simpl in Hn. lia.
      * specialize (IH k (n / 16)%N (String (hex_digit (n mod 16)) acc)).
        simpl String.length in IH.
        assert ((n / 16 < 16 ^ N.of_nat (S k))%N) as Hq.
        { apply N.Div0.div_lt_upper_bound.
          replace (N.of_nat (S (S k))) with (N.succ (N.of_nat (S k))) in Hn by lia.
          rewrite N.pow_succ_r' in Hn. exact Hn. }
        specialize (IH Hq). lia.
Qed.

Lemma hex_digit_value_digit (d : N) :
  (d < 16)%N -> hex_digit_value (hex_digit d) = d.
Proof.
  intros Hd.
  assert (d = 0 \/ d = 1 \/ d = 2 \/ d = 3 \/ d = 4 \/ d = 5 \/ d = 6 \/ d = 7 \/
          d = 8 \/ d = 9 \/ d = 10 \/ d = 11 \/ d = 12 \/ d = 13 \/ d = 14 \/
          d = 15)%N as H by lia.
  repeat (destruct H as [->|H]; [reflexivity|]). now subst d.
Qed.

(** With fuel for its digits, [hex_go] writes [n] in front of [acc]: read
    back, the digits give [n] again. *)
Lemma hex_go_value (fuel : nat) : forall (n v : N) (acc : string),
  (n < 16 ^ N.of_nat (S fuel))%N ->
  exists k : N,
    hex_value_from v (hex_go fuel n acc) = hex_value_from (v * 16 ^ k + n) acc.
Proof.
  induction fuel as [|f IH]; intros n v acc Hn; simpl hex_go.
  - exists 1%N. simpl hex_value_from.
    rewrite N.mod_small, hex_digit_value_digit by exact Hn.
    f_equal. lia.
  - destruct (N.eqb_spec (n / 16) 0) as [Hz|Hz].
    + assert (n < 16)%N as Hs.
      { destruct (N.lt_ge_cases n 16) as [?|Hge]; [assumption|].
        apply (N.Div0.div_le_mono _ _ 16) in Hge.
        change (16 / 16)%N with 1%N in Hge. lia. }
      exists 1%N. simpl hex_value_from.
      rewrite N.mod_small, hex_digit_value_digit by exact Hs.
      f_equal. lia.
    + assert (n / 16 < 16 ^ N.of_nat (S f))%N as Hq.
      { apply N.Div0.div_lt_upper_bound.
        replace (N.of_nat (S (S f))) with (N.succ (N.of_nat (S f))) in Hn by lia.
        rewrite N.pow_succ_r' in Hn. exact Hn. }
      destruct (IH (n / 16)%N v (String (hex_digit (n mod 16)) acc) Hq) as [k Hk].
      exists (N.succ k). rewrite Hk. simpl hex_value_from.
      rewrite hex_digit_value_digit by (apply N.mod_lt; discriminate).
      f_equal. rewrite N.pow_succ_r'.
      pose proof (N.div_mod n 16 ltac:(discriminate)). lia.
Qed.

Lemma size_nat_bound (n : N) : (n < 16 ^ N.of_nat (S (N.size_nat n)))%N.
Proof.
  assert (n < 2 ^ N.of_nat (N.size_nat n))%N as H2.
  { destruct n as [|p]; [reflexivity|]. simpl N.size_nat.
    induction p as [p IH|p IH|]; [| |reflexivity];
      cbn [Pos.size_nat];
      replace (N.of_nat (S (Pos.size_nat p)))
        with (N.succ (N.of_nat (Pos.size_nat p))) by lia;
      rewrite N.pow_succ_r'; lia. }
  eapply N.lt_le_trans; [exact H2|].
  etransitivity; [apply (N.pow_le_mono_l 2 16); lia|].
  apply N.pow_le_mono_r; lia.
Qed.

(** [to_hex] has fuel enough: its digits write [n]. *)
Lemma to_hex_value (n : N) : hex_value (to_hex n) = n.
Proof.
  unfold hex_value, to_hex.
  destruct (hex_go_value (N.size_nat n) n 0 "" (size_nat_bound n)) as [k Hk].
  rewrite Hk. simpl. lia.
Qed.

Lemma to_hex_length_64 (n : N) :
  (n < 2 ^ 64)%N -> String.length (to_hex n) <= 16.
Proof.
  intros Hn. unfold to_hex.
  pose proof (hex_go_length (N.size_nat n) 15 n "") as H.
  simpl String.length in H. rewrite Nat.add_0_r in H. apply H.
  change (16 ^ N.of_nat 16)%N with (2 ^ 64)%N. exact Hn.
Qed.

Lemma wrap_size_t_lt (n : N) : (wrap_size_t n < 2 ^ 64)%N.
Proof. unfold wrap_size_t, size_t_bits. apply N.mod_lt. discriminate. Qed.

Lemma setw_fill_length (w : nat) (c : ascii) (s : string) :
  String.length s <= w -> String.length (setw_fill w c s) = w.
Proof.
  intros H. unfold setw_fill.
  rewrite StrFacts.length_app, StrFacts.length_replicate. lia.
Qed.

Lemma simple_hash_at_format (std_hash : string -> N) (t : Z) (c : string) :
  well_formed_digest (simple_hash_at std_hash t c).
Proof.
  unfold simple_hash_at, hasher. split.
  - apply setw_fill_length.
    pose proof (to_hex_length_64 _ (wrap_size_t_lt
      (std_hash (c ++ to_string t ++ to_string (Z.of_N (wrap_size_t (std_hash c))))))).
    lia.
  - unfold setw_fill. rewrite StrFacts.all_app.
    rewrite StrFacts.all_replicate by reflexivity.
    unfold to_hex. now rewrite hex_go_all.
Qed.

End HexFacts.

(** ** Reading a blob back *)

Section ReadFacts.

Lemma terminated_cons (c : ascii) (s : string) :
  s <> "" -> terminated (String c s) = String c (terminated s).
Proof.
  intros Hs. unfold terminated.
  rewrite StrFacts.ends_with_newline_cons by exact Hs.
  destruct s as [|d s]; [congruence|]. simpl Str.empty.
  now destruct (Str.ends_with_newline (String d s)).
Qed.

Lemma take_line_terminated (s : string) : forall l r,
  s <> "" -> take_line s = (l, r) ->
  terminated s = l ++ endl ++ terminated r /\ String.length r < String.length s.
Proof.
  induction s as [|c s IH]; intros l r Hne Htl; [congruence|].
  simpl in Htl. destruct (Str.is_newline c) eqn:Hc.
  - injection Htl as <- <-. split; [|simpl; lia].
    apply Ascii.eqb_eq in Hc. subst c.
    destruct s as [|d s]; [reflexivity|].
    rewrite terminated_cons by discriminate. reflexivity.
  - destruct (take_line s) as [l' r'] eqn:Hs. injection Htl as <- <-.
    destruct s as [|d s].
    + simpl in Hs. injection Hs as <- <-. split; [|simpl; lia].
      unfold terminated, Str.ends_with_newline. simpl. now rewrite Hc.
    + destruct (IH l' r') as [Ht Hlen]; [discriminate | reflexivity |].
      split; [|simpl in *; lia].
      rewrite terminated_cons by discriminate. now rewrite Ht.
Qed.

(** With one unit of fuel per character the loop is never cut short: it
    ends because [getline] fails, and has then gathered [terminated s]. *)
Lemma read_lines_terminated (fuel : nat) : forall s acc,
  String.length s <= fuel -> read_lines fuel s acc = acc ++ terminated s.
Proof.
  induction fuel as [|f IH]; intros s acc Hlen.
  - destruct s; [|simpl in Hlen; lia]. simpl.
    now rewrite StrFacts.app_nil_r.
  - destruct s as [|c s].
    + simpl. now rewrite StrFacts.app_nil_r.
    + cbn [read_lines getline].
      destruct (take_line (String c s)) as [l r] eqn:Htl.
      destruct (take_line_terminated (String c s) l r) as [Ht Hr];
        [discriminate | exact Htl |].
      rewrite IH by (simpl in *; lia).
      rewrite Ht, !StrFacts.app_assoc. reflexivity.
Qed.

Lemma pop_back_terminated (s : string) :
  (if negb (Str.empty (terminated s)) then Str.pop_back (terminated s)
   else terminated s) = strip_newline s.
Proof.
  unfold terminated, strip_newline.
  destruct s as [|c s]; [reflexivity|]. simpl Str.empty.
  destruct (Str.ends_with_newline (String c s)) eqn:He; [reflexivity|].
  change (Str.empty (String c s ++ endl)) with false. cbn [negb].
  unfold endl. apply StrFacts.pop_back_snoc.
Qed.

Lemma strip_newline_id (s : string) :
  Str.ends_with_newline s = false -> strip_newline s = s.
Proof. intros H. unfold strip_newline. now rewrite H. Qed.

(** What [read_blob] does, by the state of the object's path. *)
Lemma read_blob_run (hash : string) (w : Proc) :
  read_blob hash w =
  match files w !! blob_path hash with
  | Some (File c) => (Value (strip_newline c), w)
  | Some Dir => (Value "", w)
  | None => (Value "",
             add_log (Cerr ("Error: Could not read blob from " ++ blob_path hash)) w)
  end.
Proof.
  unfold read_blob, ifstream_open, gets, mbind, Cmd_bind.
  change (minigit_dir_name ++ "/objects/" ++ hash) with (blob_path hash).
  destruct (files w !! blob_path hash) as [[|c]|]; try reflexivity.
  rewrite read_lines_terminated by lia. simpl.
  rewrite StrFacts.app_nil_l, pop_back_terminated. reflexivity.
Qed.

End ReadFacts.

(** ** Writing a blob *)

Section SaveFacts.

Variable std_hash : string -> N.

Lemma simple_hash_at_nonempty (t : Z) (c : string) :
  simple_hash_at std_hash t c <> "".
Proof.
  intros H. destruct (simple_hash_at_format std_hash t c) as [Hlen _].
  rewrite H in Hlen. discriminate.
Qed.

(** What [save_blob] does, by whether the object's path opens. *)
Lemma save_blob_run (c : string) (w : Proc) :
  save_blob std_hash c w =
  let hash := simple_hash_at std_hash (clock w) c in
  if opens_for_writing (blob_path hash) w
  then (Value hash, set_files <[blob_path hash := File c]> w)
  else (Value "",
        add_log (Cerr ("Error: Could not save blob to " ++ blob_path hash)) w).
Proof.
  unfold save_blob, generate_simple_hash, ofstream_open, ofstream_write,
    cerr, modify, gets, mbind, mret, Cmd_bind, Cmd_ret.
  cbv zeta.
  change (minigit_dir_name ++ "/objects/" ++ simple_hash_at std_hash (clock w) c)
    with (blob_path (simple_hash_at std_hash (clock w) c)).
  destruct (opens_for_writing _ w); [|reflexivity].
  unfold set_files. cbn [files readonly cwd clock log].
  rewrite alter_insert_eq. reflexivity.
Qed.

(** A run of [save_blob] that gives a digest opened the path, wrote the
    content there and touched nothing else. *)
Lemma save_blob_success (c : string) (w w' : Proc) (d : string) :
  save_blob std_hash c w = (Value d, w') -> d <> "" ->
  d = simple_hash_at std_hash (clock w) c /\
  opens_for_writing (blob_path d) w = true /\
  w' = set_files <[blob_path d := File c]> w.
Proof.
  rewrite save_blob_run. cbv zeta.
  destruct (opens_for_writing _ w) eqn:Ho; intros [= <- <-] Hd;
    [auto | congruence].
Qed.

End SaveFacts.

(** The directory of an entry, and of an object. *)
Lemma parent_path_child (d name : string) :
  Str.mem Str.slash name = false ->
  parent_path (d ++ String Str.slash name) = d.
Proof.
  intros H. induction d as [|c d IH].
  - rewrite StrFacts.app_nil_l. cbn [parent_path]. now rewrite H.
  - rewrite StrFacts.app_cons. cbn [parent_path].
    rewrite StrFacts.mem_app. cbn [Str.mem].
    rewrite (proj2 (Ascii.eqb_eq _ _) eq_refl), orb_true_r, IH. reflexivity.
Qed.

Lemma parent_path_blob (h : string) :
  Str.mem Str.slash h = false -> parent_path (blob_path h) = objects_path.
Proof.
  intros H. change (blob_path h) with (objects_path ++ String Str.slash h).
  now apply parent_path_child.
Qed.

(** What [save_blob_when] does, by whether the object's path opens and
    whether the write goes through. *)
Lemma save_blob_when_run (std_hash : string -> N) (goes_through : bool)
    (c : string) (w : Proc) :
  save_blob_when std_hash goes_through c w =
  let hash := simple_hash_at std_hash (clock w) c in
  if opens_for_writing (blob_path hash) w
  then (Value hash,
        set_files <[blob_path hash := File (if goes_through then c else "")]> w)
  else (Value "",
        add_log (Cerr ("Error: Could not save blob to " ++ blob_path hash)) w).
Proof.
  unfold save_blob_when, generate_simple_hash, ofstream_open, ofstream_write_when,
    ofstream_write, cerr, modify, gets, mbind, mret, Cmd_bind, Cmd_ret.
  cbv zeta.
  change (minigit_dir_name ++ "/objects/" ++ simple_hash_at std_hash (clock w) c)
    with (blob_path (simple_hash_at std_hash (clock w) c)).
  destruct (opens_for_writing _ w); [|reflexivity].
  destruct goes_through; [|reflexivity].
  unfold set_files. cbn [files readonly cwd clock log].
  rewrite alter_insert_eq. reflexivity.
Qed.

(** When the write goes through, [save_blob_when] is [save_blob]. *)
Lemma save_blob_when_true (std_hash : string -> N) (c : string) (w : Proc) :
  save_blob_when std_hash true c w = save_blob std_hash c w.
Proof. now rewrite save_blob_when_run, save_blob_run. Qed.

(** ** The object store: claims *)

(** C1. Round trip of the object store: when [save_blob c] gives a digest
    [d] and [c] does not end in a newline, [read_blob d] gives back exactly
    [c], and changes nothing. *)
Theorem save_then_read (std_hash : string -> N) (c d : string) (w w' : Proc) :
  Str.ends_with_newline c = false ->
  save_blob std_hash c w = (Value d, w') -> d <> "" ->
  read_blob d w' = (Value c, w').
Proof.
  intros Hnl Hsave Hd.
  destruct (save_blob_success std_hash c w w' d Hsave Hd) as (_ & _ & ->).
  rewrite read_blob_run. unfold set_files. cbn [files].
  rewrite lookup_insert_eq, strip_newline_id by exact Hnl. reflexivity.
Qed.

(** C1, at the content of the program's own test: ["Hello, MiniGit!"] in a
    fresh repository. *)
Lemma save_then_read_hello :
  let w' := snd (save_blob fnv1a "Hello, MiniGit!" fresh_repository) in
  read_blob "0000000000000000783ba99a123c5e13" w' = (Value "Hello, MiniGit!", w').
Proof.
  apply (save_then_read fnv1a "Hello, MiniGit!" _ fresh_repository).
  - reflexivity.
  - vm_compute. reflexivity.
  - discriminate.
Defined.

(** C4. Digest format: a digest [save_blob] returns has exactly 32
    characters, each one of [0-9a-f]. *)
Theorem digest_format (std_hash : string -> N) (c d : string) (w w' : Proc) :
  save_blob std_hash c w = (Value d, w') -> d <> "" ->
  well_formed_digest d.
Proof.
  intros Hsave Hd.
  destruct (save_blob_success std_hash c w w' d Hsave Hd) as (-> & _).
  apply simple_hash_at_format.
Qed.

Lemma digest_format_hello :
  well_formed_digest "0000000000000000783ba99a123c5e13".
Proof.
  apply (digest_format fnv1a "Hello, MiniGit!" _ fresh_repository
           (snd (save_blob fnv1a "Hello, MiniGit!" fresh_repository))).
  - vm_compute. reflexivity.
  - discriminate.
Defined.

(** C2, as the code has it. For a digest, a string of 32 characters
    without a slash, [read_blob] looks for the entry of that name in the
    directory [objects]. When no regular file is there it does not throw,
    leaves the file system as it was and returns the empty string; when
    nothing at all is there it prints one line on [std::cerr], and when a
    directory is there the stream opens and nothing is printed. *)
Theorem read_missing_object (d : string) (w : Proc) :
  String.length d = 32 -> Str.mem Str.slash d = false ->
  (forall c, files w !! blob_path d <> Some (File c)) ->
  parent_path (blob_path d) = objects_path /\
  fst (read_blob d w) = Value "" /\
  files (snd (read_blob d w)) = files w /\
  (files w !! blob_path d = None ->
   read_blob d w =
   (Value "", add_log (Cerr ("Error: Could not read blob from " ++ blob_path d)) w)) /\
  (files w !! blob_path d = Some Dir -> read_blob d w = (Value "", w)).
Proof.
  intros _ Hs Hf. split; [now apply parent_path_blob|].
  rewrite read_blob_run.
  destruct (files w !! blob_path d) as [[|c]|];
    [| now destruct (Hf c) |]; repeat split; discriminate.
Qed.

Lemma read_missing_object_zeros :
  fst (read_blob (Str.replicate 32 "0") fresh_repository) = Value "" /\
  errors (snd (read_blob (Str.replicate 32 "0") fresh_repository)) =
    ["Error: Could not read blob from .minigit/objects/00000000000000000000000000000000"].
Proof.
  destruct (read_missing_object (Str.replicate 32 "0") fresh_repository)
    as (_ & _ & _ & H & _).
  - reflexivity.
  - reflexivity.
  - intros c. vm_compute. discriminate.
  - rewrite H by (vm_compute; reflexivity). split; reflexivity.
Defined.

(** C2, as stated, fails: the value returned for the never-written digest of
    32 zeros is the very value a successful read of an empty object
    returns. *)
Lemma missing_object_reads_as_empty_object :
  let d := Str.replicate 32 "0" in
  let w_missing := fresh_repository in
  let w_empty := set_files <[blob_path d := File ""]> fresh_repository in
  String.length d = 32 /\
  files w_missing !! blob_path d = None /\
  files w_empty !! blob_path d = Some (File "") /\
  fst (read_blob d w_missing) = fst (read_blob d w_empty) /\
  fst (read_blob d w_empty) = Value "" /\
  errors (snd (read_blob d w_empty)) = [].
Proof. vm_compute. repeat split; reflexivity. Qed.

(** C8, as the code has it. When the object's path cannot be opened for
    writing, [save_blob] prints one line on [std::cerr], leaves the file
    system as it was and returns the empty string, which is no digest. A
    digest is returned exactly when the path opened, whether the write
    then went through or not; the file at [objects/d] holds the content
    when the write went through. *)
Theorem save_blob_checks_the_open_only
    (std_hash : string -> N) (write_goes_through : bool) (c : string) (w : Proc) :
  let hash := simple_hash_at std_hash (clock w) c in
  (opens_for_writing (blob_path hash) w = false ->
   save_blob_when std_hash write_goes_through c w =
     (Value "",
      add_log (Cerr ("Error: Could not save blob to " ++ blob_path hash)) w) /\
   ~ well_formed_digest "") /\
  (opens_for_writing (blob_path hash) w = true ->
   fst (save_blob_when std_hash write_goes_through c w) = Value hash /\
   well_formed_digest hash) /\
  (forall d w', save_blob_when std_hash write_goes_through c w = (Value d, w') ->
     d <> "" ->
     opens_for_writing (blob_path d) w = true /\
     (write_goes_through = true -> files w' !! blob_path d = Some (File c))).
Proof.
  cbv zeta. rewrite save_blob_when_run. cbv zeta.
  destruct (opens_for_writing _ w) eqn:Ho; repeat split;
    try discriminate; try reflexivity.
  - apply simple_hash_at_format.
  - apply simple_hash_at_format.
  - injection H as <- <-. exact Ho.
  - intros ->. injection H as <- <-. unfold set_files. cbn [files].
    apply lookup_insert_eq.
  - intros [Hlen _]. discriminate.
  - injection H as <- _. congruence.
  - injection H as <- _. congruence.
Qed.

(** C8 where [init] was never run: there is no [objects] directory. *)
Lemma save_blob_without_repository :
  save_blob_when fnv1a true "x" (initial ∅) =
    (Value "",
     add_log (Cerr ("Error: Could not save blob to "
                    ++ blob_path (simple_hash_at fnv1a 0 "x"))) (initial ∅)) /\
  ~ well_formed_digest "".
Proof.
  apply (save_blob_checks_the_open_only fnv1a true "x" (initial ∅)).
  vm_compute. reflexivity.
Defined.

(** C8, as stated, fails: in a fresh repository, when the write fails after
    the open succeeded, [save_blob] still returns the digest, and the
    file at [objects/d] is empty: the content ["x"] was not persisted. *)
Lemma digest_of_unwritten_content :
  let run := save_blob_when fnv1a false "x" fresh_repository in
  let d := simple_hash_at fnv1a 0 "x" in
  fst run = Value d /\
  well_formed_digest d /\
  errors (snd run) = [] /\
  files (snd run) !! blob_path d = Some (File "") /\
  files (snd run) !! blob_path d <> Some (File "x").
Proof.
  cbv zeta. rewrite save_blob_when_run. cbv zeta.
  replace (opens_for_writing _ fresh_repository) with true by (vm_compute; reflexivity).
  cbn [fst snd]. unfold set_files at 2 3. cbn [files]. rewrite lookup_insert_eq.
  repeat split; try reflexivity; discriminate.
Qed.

(** C9. The empty string is what [read_blob] returns for a missing object
    and for an object that holds nothing, and what [save_blob] returns when
    it fails; it has not the 32 characters of a digest. *)
Theorem empty_string_is_the_error_value
    (std_hash : string -> N) (hash c : string) (w_missing w_empty w_closed : Proc) :
  files w_missing !! blob_path hash = None ->
  files w_empty !! blob_path hash = Some (File "") ->
  opens_for_writing
    (blob_path (simple_hash_at std_hash (clock w_closed) c)) w_closed = false ->
  fst (read_blob hash w_missing) = Value "" /\
  fst (read_blob hash w_empty) = Value "" /\
  fst (save_blob std_hash c w_closed) = Value "" /\
  String.length "" <> 32.
Proof.
  intros Hm He Hc. rewrite !read_blob_run, save_blob_run, Hm, He. cbv zeta.
  rewrite Hc. repeat split; try reflexivity. discriminate.
Qed.

Lemma empty_string_is_the_error_value_zeros :
  let d := Str.replicate 32 "0" in
  fst (read_blob d fresh_repository) = Value "" /\
  fst (read_blob d (set_files <[blob_path d := File ""]> fresh_repository)) = Value "" /\
  fst (save_blob fnv1a "x" (initial ∅)) = Value "" /\
  String.length "" <> 32.
Proof.
  apply (empty_string_is_the_error_value fnv1a (Str.replicate 32 "0") "x"
           fresh_repository
           (set_files <[blob_path (Str.replicate 32 "0") := File ""]> fresh_repository)
           (initial ∅)).
  - vm_compute. reflexivity.
  - vm_compute. reflexivity.
  - vm_compute. reflexivity.
Defined.

(** C10. The digest is a function of the content and of the clock second:
    two runs of [save_blob] on the same content that read the same second
    return the same digest, whatever else differs, and the later one leaves
    its content in the one file [objects/d], replacing what was there. *)
Theorem same_second_same_digest
    (std_hash : string -> N) (c d1 d2 : string) (w1 w1' w2 w2' : Proc) :
  clock w1 = clock w2 ->
  save_blob std_hash c w1 = (Value d1, w1') -> d1 <> "" ->
  save_blob std_hash c w2 = (Value d2, w2') -> d2 <> "" ->
  d1 = simple_hash_at std_hash (clock w1) c /\
  d2 = d1 /\
  blob_path d2 = blob_path d1 /\
  files w1' !! blob_path d1 = Some (File c) /\
  files w2' = <[blob_path d1 := File c]> (files w2).
Proof.
  intros Hclock H1 Hd1 H2 Hd2.
  destruct (save_blob_success std_hash c w1 w1' d1 H1 Hd1) as (E1 & _ & ->).
  destruct (save_blob_success std_hash c w2 w2' d2 H2 Hd2) as (E2 & _ & ->).
  rewrite <- Hclock in E2. subst d2.
  unfold set_files. cbn [files]. rewrite lookup_insert_eq. rewrite <- E1.
  repeat split; assumption || reflexivity.
Qed.

(** C10 on two writes in a row of ["x"], the second over the first. *)
Lemma same_second_same_digest_twice :
  let w1 := fresh_repository in
  let w1' := snd (save_blob fnv1a "x" w1) in
  let w2' := snd (save_blob fnv1a "x" w1') in
  let d := simple_hash_at fnv1a 0 "x" in
  d = simple_hash_at fnv1a (clock w1) "x" /\
  d = d /\
  blob_path d = blob_path d /\
  files w1' !! blob_path d = Some (File "x") /\
  files w2' = <[blob_path d := File "x"]> (files w1').
Proof.
  cbv zeta.
  apply (same_second_same_digest fnv1a "x" _ _ fresh_repository _
           (snd (save_blob fnv1a "x" fresh_repository))
           (snd (save_blob fnv1a "x" (snd (save_blob fnv1a "x" fresh_repository))))).
  - reflexivity.
  - vm_compute. reflexivity.
  - vm_compute. discriminate.
  - vm_compute. reflexivity.
  - vm_compute. discriminate.
Defined.

(** ** Initialising: the state *)

Section ProcFacts.

Lemma files_add_log e w : files (add_log e w) = files w.
Proof. reflexivity. Qed.

Lemma files_set_files f w : files (set_files f w) = f (files w).
Proof. reflexivity. Qed.

Lemma readonly_add_log e w : readonly (add_log e w) = readonly w.
Proof. reflexivity. Qed.

Lemma readonly_set_files f w : readonly (set_files f w) = readonly w.
Proof. reflexivity. Qed.

Lemma log_add_log e w : log (add_log e w) = (log w ++ [e])%list.
Proof. reflexivity. Qed.

Lemma log_set_files f w : log (set_files f w) = log w.
Proof. reflexivity. Qed.

Lemma errors_set_files f w : errors (set_files f w) = errors w.
Proof. reflexivity. Qed.

Lemma errors_cout s w : errors (add_log (Cout s) w) = errors w.
Proof.
  unfold errors, add_log. cbn [log]. rewrite omap_app. cbn. apply app_nil_r.
Qed.

Lemma errors_cerr s w : errors (add_log (Cerr s) w) = (errors w ++ [s])%list.
Proof. unfold errors, add_log. cbn [log]. rewrite omap_app. reflexivity. Qed.

Lemma is_dir_true p w : is_dir p w = true <-> files w !! p = Some Dir.
Proof. unfold is_dir. destruct (files w !! p) as [[|c]|]; split; congruence. Qed.

Lemma grows_refl w : grows w w.
Proof. unfold grows. auto. Qed.

Lemma grows_trans w1 w2 w3 : grows w1 w2 -> grows w2 w3 -> grows w1 w3.
Proof.
  intros (R1 & D1 & S1 & L1) (R2 & D2 & S2 & L2). unfold grows.
  split; [congruence|]. split; [auto|]. split; [auto | lia].
Qed.

Lemma grows_add_log e w : grows w (add_log e w).
Proof.
  unfold grows. rewrite files_add_log, readonly_add_log.
  repeat split; auto.
  destruct e; [rewrite errors_cout | rewrite errors_cerr, length_app]; lia.
Qed.

(** A new entry where there was none, or a file where there was no
    directory. *)
Lemma grows_insert p n w :
  files w !! p <> Some Dir -> grows w (set_files <[p := n]> w).
Proof.
  intros Hp. unfold grows.
  rewrite files_set_files, readonly_set_files, errors_set_files.
  repeat split; auto; intros q Hq.
  - destruct (decide (p = q)) as [->|Hne]; [congruence|].
    now rewrite lookup_insert_ne.
  - destruct (decide (p = q)) as [->|Hne].
    + rewrite lookup_insert_eq. eauto.
    + now rewrite lookup_insert_ne.
Qed.

End ProcFacts.

Create Rewrite HintDb proc.
#[local] Hint Rewrite files_add_log files_set_files readonly_add_log
  readonly_set_files log_add_log log_set_files errors_set_files
  errors_cout errors_cerr : proc.

(** ** Initialising: commands in sequence *)

Section BindFacts.

Context {A B : Type}.
Implicit Types (m : Cmd A) (k : A -> Cmd B).

Lemma bind_run m k (w : Proc) :
  (m ≫= k) w =
  match m w with
  | (Value a, w1) => k a w1
  | (Returned, w1) => (Returned, w1)
  | (Thrown e, w1) => (Thrown e, w1)
  end.
Proof. reflexivity. Qed.

Lemma bind_value m k (w w' : Proc) (b : B) :
  (m ≫= k) w = (Value b, w') ->
  exists a w1, m w = (Value a, w1) /\ k a w1 = (Value b, w').
Proof.
  rewrite bind_run. destruct (m w) as [[a| |e] w1]; intros H;
    [eauto | discriminate..].
Qed.

Lemma keeps_bind q m k :
  keeps q m -> (forall a, keeps q (k a)) -> keeps q (m ≫= k).
Proof.
  intros Hm Hk w. rewrite bind_run. specialize (Hm w).
  destruct (m w) as [[a| |e] w1]; cbn [snd] in *; try exact Hm.
  rewrite Hk. exact Hm.
Qed.

Lemma stops_on_mkdir_bind mt m k :
  stops_on_mkdir mt m -> (forall a, stops_on_mkdir mt (k a)) ->
  stops_on_mkdir mt (m ≫= k).
Proof.
  intros Hm Hk w. rewrite bind_run. specialize (Hm w).
  destruct (m w) as [[a| |e] w1]; cbn [fst snd] in *; intros Hstop.
  - now apply Hk.
  - destruct Hm as [q Hq]; [discriminate|]. exists q.
    destruct mt; [discriminate | split; [reflexivity | apply Hq]].
  - destruct Hm as [q Hq]; [discriminate|]. exists q.
    destruct mt; [congruence | now destruct Hq].
Qed.

Lemma grows_bind m k :
  (forall w, grows w (snd (m w))) -> (forall a w, grows w (snd (k a w))) ->
  forall w, grows w (snd ((m ≫= k) w)).
Proof.
  intros Hm Hk w. rewrite bind_run. specialize (Hm w).
  destruct (m w) as [[a| |e] w1]; cbn [snd] in *; try exact Hm.
  eapply grows_trans; [exact Hm | apply Hk].
Qed.

End BindFacts.

Lemma total_stops_on_mkdir {A : Type} (mt : bool) (c : Cmd A) :
  total c -> stops_on_mkdir mt c.
Proof. intros Ht w Hstop. destruct (Ht w) as [a Ha]. now destruct (Hstop a). Qed.

Lemma cout_run (s : string) (w : Proc) : cout s w = (Value tt, add_log (Cout s) w).
Proof. reflexivity. Qed.

Lemma cout_total (s : string) : total (cout s).
Proof. intros w. now exists tt. Qed.

Lemma cout_keeps (q s : string) : keeps q (cout s).
Proof. intros w. reflexivity. Qed.

Lemma cout_grows (s : string) (w : Proc) : grows w (snd (cout s w)).
Proof. apply grows_add_log. Qed.

(** ** Initialising: the blocks of [init] *)

Section Blocks.

Variable mkdir_throws : bool.

Lemma mkdir_failure_files p w :
  files (snd (mkdir_failure mkdir_throws p w)) = files w.
Proof. unfold mkdir_failure. now destruct mkdir_throws. Qed.

Lemma mkdir_failure_grows p w : grows w (snd (mkdir_failure mkdir_throws p w)).
Proof.
  unfold mkdir_failure.
  destruct mkdir_throws; [apply grows_refl | apply grows_add_log].
Qed.

Lemma mkdir_failure_no_value p w :
  fst (mkdir_failure mkdir_throws p w) <> Value tt.
Proof. unfold mkdir_failure. now destruct mkdir_throws. Qed.

Lemma mkdir_failure_shape p w :
  if mkdir_throws then fst (mkdir_failure mkdir_throws p w) = Thrown p
  else fst (mkdir_failure mkdir_throws p w) = Returned /\
       last (log (snd (mkdir_failure mkdir_throws p w))) =
         Some (Cerr ("Error: Could not create directory " ++ p)).
Proof.
  unfold mkdir_failure. destruct mkdir_throws; [reflexivity|].
  split; [reflexivity|]. cbn [snd]. rewrite log_add_log. apply last_snoc.
Qed.

(** *** The three sub-directories *)

Lemma ensure_directory_run (p : string) (w : Proc) :
  ensure_directory mkdir_throws p w =
  match files w !! p with
  | Some _ => (Value tt, w)
  | None =>
      if writable p w
      then (Value tt, add_log (Cout ("Created directory: " ++ p))
                        (set_files <[p := Dir]> w))
      else mkdir_failure mkdir_throws p w
  end.
Proof.
  unfold ensure_directory, fs_exists, create_directory,
    mkdir_failed, mkdir_failure, cout, cerr, return_, throw, modify, gets,
    mbind, mret, Cmd_bind, Cmd_ret.
  destruct (files w !! p) as [[|c]|] eqn:E;
    destruct (writable p w) eqn:W; destruct mkdir_throws;
    cbn [negb]; rewrite ?E, ?W; reflexivity.
Qed.

Ltac by_cases_of_ensure p w :=
  rewrite ensure_directory_run;
  destruct (files w !! p) as [n|] eqn:Hp; [|destruct (writable p w) eqn:Hw];
  cbn [fst snd].

Lemma ensure_directory_grows p w :
  grows w (snd (ensure_directory mkdir_throws p w)).
Proof.
  by_cases_of_ensure p w.
  - apply grows_refl.
  - eapply grows_trans; [apply (grows_insert p Dir) | apply grows_add_log].
    congruence.
  - apply mkdir_failure_grows.
Qed.

Lemma ensure_directory_keeps p q :
  q <> p -> keeps q (ensure_directory mkdir_throws p).
Proof.
  intros Hq w. by_cases_of_ensure p w.
  - reflexivity.
  - autorewrite with proc. now rewrite lookup_insert_ne.
  - now rewrite mkdir_failure_files.
Qed.

Lemma ensure_directory_stops p :
  stops_on_mkdir mkdir_throws (ensure_directory mkdir_throws p).
Proof.
  intros w. by_cases_of_ensure p w; intros Hstop.
  - now destruct (Hstop tt).
  - now destruct (Hstop tt).
  - exists p. apply mkdir_failure_shape.
Qed.

(** When the block is passed, the path exists; it was made only where
    there was nothing and the place could be written. *)
Lemma ensure_directory_ok p w w' :
  ensure_directory mkdir_throws p w = (Value tt, w') ->
  is_Some (files w' !! p) /\ (files w !! p = None -> writable p w = true).
Proof.
  by_cases_of_ensure p w; intros H.
  - injection H as <-. rewrite Hp. split; [eauto | discriminate].
  - injection H as <-. autorewrite with proc. rewrite lookup_insert_eq. eauto.
  - exfalso. apply (mkdir_failure_no_value p w). now rewrite H.
Qed.

(** *** The repository directory *)

Lemma init_root_run (w : Proc) :
  init_root mkdir_throws w =
  match files w !! minigit_dir_name with
  | Some Dir =>
      (Value tt,
       add_log (Cout ("Reinitializing existing MiniGit repository in "
                      ++ quoted (cwd w))) w)
  | Some (File _) => mkdir_failure mkdir_throws minigit_dir_name w
  | None =>
      if writable minigit_dir_name w
      then (Value tt, add_log (Cout ("Created directory: " ++ minigit_dir_name))
                        (set_files <[minigit_dir_name := Dir]> w))
      else mkdir_failure mkdir_throws minigit_dir_name w
  end.
Proof.
  unfold init_root, fs_exists, fs_is_directory, current_path, create_directory,
    mkdir_failed, mkdir_failure, is_dir, cout, cerr, return_, throw, modify, gets,
    mbind, mret, Cmd_bind, Cmd_ret.
  destruct (files w !! minigit_dir_name) as [[|c]|] eqn:E;
    destruct (writable minigit_dir_name w) eqn:W; destruct mkdir_throws;
    cbn [andb negb]; rewrite ?E, ?W; reflexivity.
Qed.

Ltac by_cases_of_root w :=
  rewrite init_root_run;
  destruct (files w !! minigit_dir_name) as [[|c]|] eqn:Hp;
    [| |destruct (writable minigit_dir_name w) eqn:Hw];
  cbn [fst snd].

Lemma init_root_grows w : grows w (snd (init_root mkdir_throws w)).
Proof.
  by_cases_of_root w.
  - apply grows_add_log.
  - apply mkdir_failure_grows.
  - eapply grows_trans;
      [apply (grows_insert minigit_dir_name Dir) | apply grows_add_log].
    congruence.
  - apply mkdir_failure_grows.
Qed.

Lemma init_root_keeps q :
  q <> minigit_dir_name -> keeps q (init_root mkdir_throws).
Proof.
  intros Hq w. by_cases_of_root w.
  - reflexivity.
  - now rewrite mkdir_failure_files.
  - autorewrite with proc. now rewrite lookup_insert_ne.
  - now rewrite mkdir_failure_files.
Qed.

Lemma init_root_stops : stops_on_mkdir mkdir_throws (init_root mkdir_throws).
Proof.
  intros w. by_cases_of_root w; intros Hstop.
  - now destruct (Hstop tt).
  - exists minigit_dir_name. apply mkdir_failure_shape.
  - now destruct (Hstop tt).
  - exists minigit_dir_name. apply mkdir_failure_shape.
Qed.

(** When the block is passed the repository directory is a directory, and
    no regular file had its name. *)
Lemma init_root_ok w w' :
  init_root mkdir_throws w = (Value tt, w') ->
  files w' !! minigit_dir_name = Some Dir /\
  (forall c, files w !! minigit_dir_name <> Some (File c)).
Proof.
  by_cases_of_root w; intros H.
  - injection H as <-. now rewrite files_add_log, Hp.
  - exfalso. apply (mkdir_failure_no_value minigit_dir_name w). now rewrite H.
  - injection H as <-. autorewrite with proc. now rewrite lookup_insert_eq.
  - exfalso. apply (mkdir_failure_no_value minigit_dir_name w). now rewrite H.
Qed.

End Blocks.

(** *** The two files *)

Section FileBlocks.

Lemma opens_for_writing_true p w :
  opens_for_writing p w = true ->
  files w !! p <> Some Dir /\ writable p w = true.
Proof.
  unfold opens_for_writing. intros H. apply andb_true_iff in H as [Hd Hw].
  split; [|exact Hw]. intros Hp. apply is_dir_true in Hp.
  rewrite Hp in Hd. discriminate.
Qed.

Lemma init_head_run (w : Proc) :
  init_head w =
  if opens_for_writing head_path w
  then (Value tt, add_log (Cout "Initialized HEAD to point to refs/heads/main")
                    (set_files <[head_path := File head_line]> w))
  else (Value tt, add_log (Cerr "Error: Could not create HEAD file.") w).
Proof.
  unfold init_head, ofstream_open, ofstream_write, cout, cerr, modify,
    mbind, mret, Cmd_bind, Cmd_ret.
  destruct (opens_for_writing head_path w); [|reflexivity].
  unfold set_files, add_log. cbn [files readonly cwd clock log].
  rewrite alter_insert_eq. reflexivity.
Qed.

Lemma init_main_branch_run (w : Proc) :
  init_main_branch w =
  if opens_for_writing main_branch_path w
  then (Value tt, add_log (Cout "Created initial 'main' branch reference file.")
                    (set_files <[main_branch_path := File ""]> w))
  else (Value tt, add_log (Cerr "Error: Could not create main branch file.") w).
Proof.
  unfold init_main_branch, ofstream_open, cout, cerr, modify,
    mbind, mret, Cmd_bind, Cmd_ret.
  destruct (opens_for_writing main_branch_path w); reflexivity.
Qed.

Lemma init_head_total : total init_head.
Proof.
  intros w. exists tt. rewrite init_head_run.
  now destruct (opens_for_writing head_path w).
Qed.

Lemma init_main_branch_total : total init_main_branch.
Proof.
  intros w. exists tt. rewrite init_main_branch_run.
  now destruct (opens_for_writing main_branch_path w).
Qed.

Lemma init_head_grows w : grows w (snd (init_head w)).
Proof.
  rewrite init_head_run.
  destruct (opens_for_writing head_path w) eqn:Ho; cbn [snd].
  - apply opens_for_writing_true in Ho as [Hd _].
    eapply grows_trans; [now apply (grows_insert head_path) | apply grows_add_log].
  - apply grows_add_log.
Qed.

Lemma init_main_branch_grows w : grows w (snd (init_main_branch w)).
Proof.
  rewrite init_main_branch_run.
  destruct (opens_for_writing main_branch_path w) eqn:Ho; cbn [snd].
  - apply opens_for_writing_true in Ho as [Hd _].
    eapply grows_trans;
      [now apply (grows_insert main_branch_path) | apply grows_add_log].
  - apply grows_add_log.
Qed.

Lemma init_head_keeps q : q <> head_path -> keeps q init_head.
Proof.
  intros Hq w. rewrite init_head_run.
  destruct (opens_for_writing head_path w); cbn [snd]; autorewrite with proc;
    [now rewrite lookup_insert_ne | reflexivity].
Qed.

Lemma init_main_branch_keeps q : q <> main_branch_path -> keeps q init_main_branch.
Proof.
  intros Hq w. rewrite init_main_branch_run.
  destruct (opens_for_writing main_branch_path w); cbn [snd]; autorewrite with proc;
    [now rewrite lookup_insert_ne | reflexivity].
Qed.

(** The block either wrote HEAD, or printed one more error line. *)
Lemma init_head_cases w :
  (opens_for_writing head_path w = true /\
   files (snd (init_head w)) !! head_path = Some (File head_line)) \/
  (opens_for_writing head_path w = false /\
   length (errors (snd (init_head w))) = S (length (errors w))).
Proof.
  rewrite init_head_run.
  destruct (opens_for_writing head_path w); cbn [snd]; autorewrite with proc.
  - left. now rewrite lookup_insert_eq.
  - right. split; [reflexivity|]. rewrite length_app. simpl. lia.
Qed.

Lemma init_main_branch_cases w :
  (opens_for_writing main_branch_path w = true /\
   files (snd (init_main_branch w)) !! main_branch_path = Some (File "")) \/
  (opens_for_writing main_branch_path w = false /\
   length (errors (snd (init_main_branch w))) = S (length (errors w))).
Proof.
  rewrite init_main_branch_run.
  destruct (opens_for_writing main_branch_path w); cbn [snd]; autorewrite with proc.
  - left. now rewrite lookup_insert_eq.
  - right. split; [reflexivity|]. rewrite length_app. simpl. lia.
Qed.

Lemma writable_head w :
  writable head_path w
  = is_dir minigit_dir_name w && negb (bool_decide (head_path ∈ readonly w)).
Proof. reflexivity. Qed.

Lemma writable_main w :
  writable main_branch_path w
  = is_dir heads_path w && negb (bool_decide (main_branch_path ∈ readonly w)).
Proof. reflexivity. Qed.

End FileBlocks.

(** ** Initialising: a run that reaches the end *)

Section InitRuns.

Variable mkdir_throws : bool.

Lemma init_passes (w w' : Proc) :
  init mkdir_throws w = (Value tt, w') -> passes mkdir_throws w w'.
Proof.
  unfold init. intros H.
  apply bind_value in H as ([] & w0 & H0 & H).
  apply bind_value in H as ([] & w1 & H1 & H).
  apply bind_value in H as ([] & w2 & H2 & H).
  apply bind_value in H as ([] & w3 & H3 & H).
  apply bind_value in H as ([] & w4 & H4 & H).
  apply bind_value in H as ([] & w5 & H5 & H).
  apply bind_value in H as ([] & w6 & H6 & H).
  rewrite cout_run in H0, H. injection H0 as H0. injection H as H.
  now apply (Passes mkdir_throws w w' w0 w1 w2 w3 w4 w5 w6).
Qed.

End InitRuns.

(** ** Initialising: a directory that cannot be made *)

Section Stops.

Variable mkdir_throws : bool.

Lemma bind_assoc_run {A B C : Type}
    (m : Cmd A) (k : A -> Cmd B) (h : B -> Cmd C) (w : Proc) :
  ((m ≫= k) ≫= h) w = (m ≫= (fun a => k a ≫= h)) w.
Proof. rewrite !bind_run. now destruct (m w) as [[a| |e] w1]. Qed.

Lemma keeps_present_bind {A B : Type} (m : Cmd A) (k : A -> Cmd B) :
  keeps_present m -> (forall a, keeps_present (k a)) -> keeps_present (m ≫= k).
Proof.
  intros Hm Hk w q Hq. rewrite bind_run. specialize (Hm w q Hq).
  destruct (m w) as [[a| |e] w1]; cbn [snd] in *; try exact Hm.
  rewrite Hk; [exact Hm | now rewrite Hm].
Qed.

Lemma cout_keeps_present s : keeps_present (cout s).
Proof. intros w q _. reflexivity. Qed.

Lemma init_root_keeps_present : keeps_present (init_root mkdir_throws).
Proof.
  intros w q Hq. destruct (decide (q = minigit_dir_name)) as [->|Hne].
  - rewrite init_root_run. destruct Hq as [n Hq]. rewrite Hq.
    destruct n; [exact Hq | now rewrite mkdir_failure_files].
  - now apply init_root_keeps.
Qed.

Lemma ensure_directory_keeps_present p :
  keeps_present (ensure_directory mkdir_throws p).
Proof.
  intros w q Hq. destruct (decide (q = p)) as [->|Hne].
  - rewrite ensure_directory_run. destruct Hq as [n Hq]. rewrite Hq. exact Hq.
  - now apply ensure_directory_keeps.
Qed.

(** The generic step: [before] ran, the directory [p] is due, and it
    cannot be made. *)
Lemma stops_at (before after : Cmd unit) (p : string) (touched : list string)
    (w : Proc) :
  (forall q, q ∉ touched -> keeps q before) ->
  p ∉ touched ->
  files w !! p = None ->
  (forall w1, before w = (Value tt, w1) -> writable p w1 = false) ->
  let run := (before;; ensure_directory mkdir_throws p;; after) w in
  fst run <> Value tt /\
  forall q, q ∉ touched -> files (snd run) !! q = files w !! q.
Proof.
  intros Hkeep Hp Hnone Hw. cbv zeta. rewrite bind_run.
  destruct (before w) as [[[]| |e] w1] eqn:Hb.
  - rewrite bind_run, ensure_directory_run.
    pose proof (Hkeep p Hp w) as Kp. rewrite Hb in Kp. cbn [snd] in Kp.
    rewrite Kp, Hnone, (Hw w1 eq_refl).
    pose proof (mkdir_failure_files mkdir_throws p w1) as Hf.
    pose proof (mkdir_failure_no_value mkdir_throws p w1) as Hv.
    destruct (mkdir_failure mkdir_throws p w1) as [[[]| |e] w2];
      cbn [fst snd] in *; try congruence;
      (split; [discriminate|]; intros q Hq; rewrite Hf;
       pose proof (Hkeep q Hq w) as Kq; now rewrite Hb in Kq).
  - split; [discriminate|]. intros q Hq.
    pose proof (Hkeep q Hq w) as Kq. now rewrite Hb in Kq.
  - split; [discriminate|]. intros q Hq.
    pose proof (Hkeep q Hq w) as Kq. now rewrite Hb in Kq.
Qed.

(** [init] cut at each of the three blocks. *)
Lemma init_at_objects w :
  init mkdir_throws w =
  (before_objects mkdir_throws;;
   ensure_directory mkdir_throws objects_path;;
   (ensure_directory mkdir_throws refs_path;;
    ensure_directory mkdir_throws heads_path;;
    init_files)) w.
Proof. symmetry. apply bind_assoc_run. Qed.

Lemma init_at_refs w :
  init mkdir_throws w =
  (before_refs mkdir_throws;;
   ensure_directory mkdir_throws refs_path;;
   (ensure_directory mkdir_throws heads_path;;
    init_files)) w.
Proof. rewrite init_at_objects. symmetry. apply bind_assoc_run. Qed.

Lemma init_at_heads w :
  init mkdir_throws w =
  (before_heads mkdir_throws;;
   ensure_directory mkdir_throws heads_path;;
   init_files) w.
Proof. rewrite init_at_refs. symmetry. apply bind_assoc_run. Qed.

Lemma init_stops : stops_on_mkdir mkdir_throws (init mkdir_throws).
Proof.
  unfold init.
  repeat (apply stops_on_mkdir_bind; [|intros _]);
    auto using total_stops_on_mkdir, cout_total, init_head_total,
      init_main_branch_total, init_root_stops, ensure_directory_stops.
Qed.

Lemma before_objects_grows w : grows w (snd (before_objects mkdir_throws w)).
Proof. apply grows_bind; auto using cout_grows, init_root_grows. Qed.

Lemma before_refs_grows w : grows w (snd (before_refs mkdir_throws w)).
Proof. apply grows_bind; auto using before_objects_grows, ensure_directory_grows. Qed.

Lemma before_heads_grows w : grows w (snd (before_heads mkdir_throws w)).
Proof. apply grows_bind; auto using before_refs_grows, ensure_directory_grows. Qed.

Lemma made_before_objects : made_before objects_path = [minigit_dir_name].
Proof. reflexivity. Qed.

Lemma made_before_refs :
  made_before refs_path = [minigit_dir_name; objects_path].
Proof. reflexivity. Qed.

Lemma made_before_heads :
  made_before heads_path = [minigit_dir_name; objects_path; refs_path].
Proof. reflexivity. Qed.

Lemma before_objects_keeps q :
  q ∉ made_before objects_path -> keeps q (before_objects mkdir_throws).
Proof.
  rewrite made_before_objects. intros Hq.
  apply keeps_bind; [apply cout_keeps | intros _].
  apply init_root_keeps. intros ->. apply Hq. now left.
Qed.

Lemma before_refs_keeps q :
  q ∉ made_before refs_path -> keeps q (before_refs mkdir_throws).
Proof.
  rewrite made_before_refs. intros Hq.
  apply keeps_bind; [apply before_objects_keeps | intros _].
  - rewrite made_before_objects. intros Hq'. apply Hq.
    apply list_elem_of_singleton in Hq' as ->. now left.
  - apply ensure_directory_keeps. intros ->. apply Hq. right. now left.
Qed.

Lemma before_heads_keeps q :
  q ∉ made_before heads_path -> keeps q (before_heads mkdir_throws).
Proof.
  rewrite made_before_heads. intros Hq.
  apply keeps_bind; [apply before_refs_keeps | intros _].
  - rewrite made_before_refs. intros Hq'. apply Hq.
    apply elem_of_cons in Hq' as [->|Hq']; [now left|].
    apply list_elem_of_singleton in Hq' as ->. right. now left.
  - apply ensure_directory_keeps. intros ->. apply Hq. right. right. now left.
Qed.

Lemma before_heads_keeps_present : keeps_present (before_heads mkdir_throws).
Proof.
  unfold before_heads, before_refs, before_objects.
  repeat (apply keeps_present_bind; [|intros _]);
    auto using cout_keeps_present, init_root_keeps_present,
      ensure_directory_keeps_present.
Qed.

(** No run gets past the repository directory when a regular file has its
    name. *)
Lemma before_objects_value w w1 :
  before_objects mkdir_throws w = (Value tt, w1) ->
  forall c, files w !! minigit_dir_name <> Some (File c).
Proof.
  unfold before_objects. intros H.
  apply bind_value in H as ([] & w0 & H0 & H).
  rewrite cout_run in H0. injection H0 as <-.
  now destruct (init_root_ok _ _ _ H) as [_ Hf].
Qed.

Lemma before_refs_value w w1 :
  before_refs mkdir_throws w = (Value tt, w1) ->
  forall c, files w !! minigit_dir_name <> Some (File c).
Proof.
  unfold before_refs. intros H.
  apply bind_value in H as ([] & w0 & H0 & H).
  now apply (before_objects_value w w0).
Qed.

Lemma protected_not_writable p w :
  p ∈ readonly w -> writable p w = false.
Proof.
  intros H. unfold writable. rewrite bool_decide_true by exact H.
  apply andb_false_r.
Qed.

End Stops.

(** ** Initialising: claims *)


(** The closing line of [init] alone does not tell a run without errors:
    it is printed after a failed HEAD as well. *)
Example success_line_after_error :
  let run := init true repository_with_head_directory in
  last (log (snd run)) = Some (Cout "MiniGit repository initialized successfully!") /\
  errors (snd run) = ["Error: Could not create HEAD file."].
Proof. vm_compute. split; reflexivity. Qed.

(** C5, as the code has it. A run of [init] that gets past its directories,
    where HEAD is not a directory and may be written, leaves in HEAD exactly
    the line [ref: refs/heads/main], whatever HEAD held before. *)
Theorem init_writes_head (mkdir_throws : bool) (w : Proc) :
  fst (init mkdir_throws w) = Value tt ->
  files w !! head_path <> Some Dir ->
  head_path ∉ readonly w ->
  files (snd (init mkdir_throws w)) !! head_path = Some (File head_line).
Proof.
  destruct (init mkdir_throws w) as [r w'] eqn:Hrun. cbn [fst snd].
  intros -> Hnd Hro.
  destruct (init_passes _ _ _ Hrun) as [w0 w1 w2 w3 w4 w5 w6 H0 H1 H2 H3 H4 H5 H6 H7].
  pose proof (init_root_grows mkdir_throws w0) as G1. rewrite H1 in G1.
  pose proof (ensure_directory_grows mkdir_throws objects_path w1) as G2. rewrite H2 in G2.
  pose proof (ensure_directory_grows mkdir_throws refs_path w2) as G3. rewrite H3 in G3.
  pose proof (ensure_directory_grows mkdir_throws heads_path w3) as G4. rewrite H4 in G4.
  cbn [snd] in *.
  assert (grows w1 w4) as G14 by eauto using grows_trans.
  assert (grows w0 w4) as G04 by eauto using grows_trans.
  pose proof (init_root_keeps mkdir_throws head_path ltac:(discriminate) w0) as K1.
  pose proof (ensure_directory_keeps mkdir_throws objects_path head_path
                ltac:(discriminate) w1) as K2.
  pose proof (ensure_directory_keeps mkdir_throws refs_path head_path
                ltac:(discriminate) w2) as K3.
  pose proof (ensure_directory_keeps mkdir_throws heads_path head_path
                ltac:(discriminate) w3) as K4.
  pose proof (init_main_branch_keeps head_path ltac:(discriminate) w5) as K6.
  rewrite H1 in K1. rewrite H2 in K2. rewrite H3 in K3. rewrite H4 in K4.
  rewrite H6 in K6. cbn [snd] in *.
  destruct (init_root_ok _ _ _ H1) as [Hroot _].
  assert (opens_for_writing head_path w4 = true) as Ho.
  { unfold opens_for_writing. rewrite writable_head.
    destruct G14 as (_ & D & _), G04 as (R & _).
    apply D, is_dir_true in Hroot. rewrite Hroot, R, H0, readonly_add_log.
    rewrite bool_decide_false by exact Hro.
    unfold is_dir. rewrite K4, K3, K2, K1, H0, files_add_log.
    now destruct (files w !! head_path) as [[|c]|]. }
  destruct (init_head_cases w4) as [[_ Hh]|[Hf _]]; [|congruence].
  rewrite H5 in Hh. cbn [snd] in Hh.
  now rewrite H7, files_add_log, K6.
Qed.

(** C5 where HEAD pointed at another branch. *)
Lemma init_writes_head_over_feature :
  files repository_on_feature !! head_path
    = Some (File ("ref: refs/heads/feature" ++ endl)) /\
  files (snd (init true repository_on_feature)) !! head_path = Some (File head_line).
Proof.
  split; [vm_compute; reflexivity|].
  apply (init_writes_head true repository_on_feature).
  - vm_compute. reflexivity.
  - vm_compute. discriminate.
  - apply not_elem_of_empty.
Defined.

(** C5, as stated, fails: with a directory where HEAD should be, [init]
    runs to its end and HEAD is not the one-line file. *)
Lemma init_leaves_head_directory :
  fst (init true repository_with_head_directory) = Value tt /\
  files (snd (init true repository_with_head_directory)) !! head_path = Some Dir /\
  fst (init false repository_with_head_directory) = Value tt /\
  files (snd (init false repository_with_head_directory)) !! head_path = Some Dir.
Proof. vm_compute. repeat split; reflexivity. Qed.

(** C3 fails on the code: a second [init] over a repository whose branch
    file records a commit runs without error and leaves the branch file
    empty. *)
Lemma reinit_empties_main_branch :
  files repository_with_commit !! main_branch_path
    = Some (File "0000000000000000783ba99a123c5e13") /\
  init_succeeded repository_with_commit (init true repository_with_commit) /\
  files (snd (init true repository_with_commit)) !! main_branch_path
    = Some (File "") /\
  files (snd (init false repository_with_commit)) !! main_branch_path
    = Some (File "").
Proof. vm_compute. repeat split; reflexivity. Qed.

(** C7, as the code has it. When one of [objects], [refs] and [refs/heads]
    is missing and cannot be made, [init] does not reach its end: it stops
    at the first directory that fails. Only the directories handled before
    are touched; the directory itself, those after it, HEAD and the branch
    file are as they were. The run ends in the library's exception, or in
    [return;] right after the line naming the directory on [std::cerr]. *)
Theorem init_stops_at_blocked_directory
    (mkdir_throws : bool) (p : string) (w : Proc) :
  p ∈ [objects_path; refs_path; heads_path] ->
  blocked p w ->
  let run := init mkdir_throws w in
  fst run <> Value tt /\
  (forall q, q ∉ made_before p -> files (snd run) !! q = files w !! q) /\
  (exists q,
     if mkdir_throws then fst run = Thrown q
     else fst run = Returned /\
          last (log (snd run)) =
            Some (Cerr ("Error: Could not create directory " ++ q))).
Proof.
  intros Hp [Hnone Hwhy]. cbv zeta.
  assert (fst (init mkdir_throws w) <> Value tt /\
          forall q, q ∉ made_before p ->
            files (snd (init mkdir_throws w)) !! q = files w !! q) as [Hv Hk].
  { apply elem_of_cons in Hp as [->|Hp];
      [|apply elem_of_cons in Hp as [->|Hp];
        [|apply list_elem_of_singleton in Hp as ->]].
    - rewrite init_at_objects.
      apply stops_at; [apply before_objects_keeps | | exact Hnone |].
      + rewrite made_before_objects, list_elem_of_singleton. discriminate.
      + intros w1 Hb. destruct Hwhy as [Hro|[c Hc]].
        * apply protected_not_writable.
          destruct (before_objects_grows mkdir_throws w) as [R _].
          rewrite Hb in R. cbn [snd] in R. now rewrite R.
        * now destruct (before_objects_value _ _ _ Hb c).
    - rewrite init_at_refs.
      apply stops_at; [apply before_refs_keeps | | exact Hnone |].
      + rewrite made_before_refs, !not_elem_of_cons.
        repeat split; [discriminate.. | apply not_elem_of_nil].
      + intros w1 Hb. destruct Hwhy as [Hro|[c Hc]].
        * apply protected_not_writable.
          destruct (before_refs_grows mkdir_throws w) as [R _].
          rewrite Hb in R. cbn [snd] in R. now rewrite R.
        * now destruct (before_refs_value _ _ _ Hb c).
    - rewrite init_at_heads.
      apply stops_at; [apply before_heads_keeps | | exact Hnone |].
      + rewrite made_before_heads, !not_elem_of_cons.
        repeat split; [discriminate.. | apply not_elem_of_nil].
      + intros w1 Hb. destruct Hwhy as [Hro|[c Hc]].
        * apply protected_not_writable.
          destruct (before_heads_grows mkdir_throws w) as [R _].
          rewrite Hb in R. cbn [snd] in R. now rewrite R.
        * pose proof (before_heads_keeps_present mkdir_throws w refs_path) as K.
          rewrite Hb in K. cbn [snd] in K.
          change (parent_path heads_path) with refs_path in Hc.
          rewrite Hc in K. specialize (K ltac:(eauto)).
          change (writable heads_path w1)
            with (is_dir refs_path w1
                  && negb (bool_decide (heads_path ∈ readonly w1))).
          unfold is_dir. now rewrite K. }
  split; [exact Hv|]. split; [exact Hk|].
  apply init_stops. intros []. exact Hv.
Qed.

(** C7 where [objects] is protected and the library returns [false]. *)
Lemma init_stops_at_protected_objects :
  let run := init false protected_objects in
  fst run <> Value tt /\
  (forall q, q ∉ made_before objects_path ->
     files (snd run) !! q = files protected_objects !! q) /\
  (exists q,
     fst run = Returned /\
     last (log (snd run)) = Some (Cerr ("Error: Could not create directory " ++ q))).
Proof.
  apply (init_stops_at_blocked_directory false objects_path protected_objects).
  - left.
  - split; [vm_compute; reflexivity|]. left.
    change (objects_path ∈ ({[objects_path]} : gset string)).
    apply elem_of_singleton. reflexivity.
Defined.

(** C7, as stated, fails: when [objects] cannot be made, [init] makes none
    of [refs], [refs/heads], HEAD and the branch file, though [refs] and
    HEAD could be made; this under either behaviour of the library. *)
Lemma init_gives_up_after_objects :
  let thrown := init true protected_objects in
  let returned := init false protected_objects in
  fst thrown = Thrown objects_path /\
  fst returned = Returned /\
  errors (snd returned) = ["Error: Could not create directory .minigit/objects"] /\
  files (snd thrown) = files protected_objects /\
  files (snd returned) = files protected_objects /\
  files protected_objects !! refs_path = None /\
  files protected_objects !! head_path = None /\
  writable refs_path (snd returned) = true /\
  writable head_path (snd returned) = true.
Proof. vm_compute. repeat split; reflexivity. Qed.

(** ** The object store: further properties *)

Section StoreFacts.

Variable std_hash : string -> N.

Lemma snoc_back (s : string) (c : ascii) :
  Str.back s = Some c -> s = Str.pop_back s ++ String c "".
Proof.
  induction s as [|d s IH]; [discriminate|].
  destruct s as [|e s].
  - simpl. now intros [= ->].
  - intros H. rewrite StrFacts.back_cons in H by discriminate.
    change (Str.pop_back (String d (String e s)))
      with (String d (Str.pop_back (String e s))).
    rewrite StrFacts.app_cons. f_equal. now apply IH.
Qed.

(** What [strip_newline] gives: the content, or the content less its final
    newline. *)
Lemma strip_newline_cases (c : string) :
  (Str.ends_with_newline c = false /\ strip_newline c = c) \/
  (Str.ends_with_newline c = true /\ c = strip_newline c ++ endl).
Proof.
  unfold strip_newline. destruct (Str.ends_with_newline c) eqn:He; [right|left; auto].
  split; [reflexivity|]. unfold Str.ends_with_newline in He.
  destruct (Str.back c) as [ch|] eqn:Hb; [|discriminate].
  apply Ascii.eqb_eq in He. subst ch. now apply snoc_back.
Qed.

Lemma app_endl_neq (r : string) : r ++ endl <> r.
Proof.
  intros H. apply (f_equal String.length) in H.
  rewrite StrFacts.length_app in H. simpl in H. lia.
Qed.

Lemma lower_hex_no_slash (d : string) :
  Str.all is_lower_hex d = true -> Str.mem Str.slash d = false.
Proof.
  induction d as [|c d IH]; [reflexivity|]. cbn [Str.all Str.mem].
  intros H. apply andb_true_iff in H as [Hc Hd]. rewrite (IH Hd).
  destruct (Ascii.eqb_spec Str.slash c) as [<-|_];
    [vm_compute in Hc; discriminate | reflexivity].
Qed.

Lemma simple_hash_at_no_slash (t : Z) (c : string) :
  Str.mem Str.slash (simple_hash_at std_hash t c) = false.
Proof. apply lower_hex_no_slash, simple_hash_at_format. Qed.

(** Whether the path of a digest opens for writing. *)
Lemma opens_for_writing_blob (h : string) (w : Proc) :
  Str.mem Str.slash h = false ->
  opens_for_writing (blob_path h) w =
  negb (is_dir (blob_path h) w)
  && (is_dir objects_path w && negb (bool_decide (blob_path h ∈ readonly w))).
Proof.
  intros H. unfold opens_for_writing, writable, parent_is_dir.
  rewrite parent_path_blob by exact H. reflexivity.
Qed.

Lemma blob_path_inj (h1 h2 : string) : blob_path h1 = blob_path h2 -> h1 = h2.
Proof. unfold blob_path. intros H. vm_compute in H. now injection H. Qed.

Lemma replicate_add (a b : nat) (c : ascii) :
  Str.replicate (a + b) c = Str.replicate a c ++ Str.replicate b c.
Proof.
  induction a as [|a IH]; [reflexivity|].
  cbn [Nat.add Str.replicate]. rewrite StrFacts.app_cons. now rewrite IH.
Qed.

Lemma hex_value_zeros (n : nat) (s : string) :
  hex_value (Str.replicate n "0" ++ s) = hex_value s.
Proof.
  unfold hex_value. induction n as [|n IH]; [reflexivity|].
  cbn [Str.replicate]. rewrite StrFacts.app_cons. exact IH.
Qed.

(** Read as a number, the digest is the value of the hash function. *)
Lemma simple_hash_at_value (t : Z) (c : string) :
  hex_value (simple_hash_at std_hash t c)
  = hasher std_hash (data_to_hash std_hash t c).
Proof.
  unfold simple_hash_at, setw_fill. rewrite hex_value_zeros. apply to_hex_value.
Qed.

End StoreFacts.

(** X1. A stored object is read back whole, or less its final newline when
    it ends in one; nothing is printed and nothing changes. *)
Theorem read_existing_object (hash c : string) (w : Proc) :
  files w !! blob_path hash = Some (File c) ->
  exists r,
    read_blob hash w = (Value r, w) /\
    (Str.ends_with_newline c = false -> r = c) /\
    (Str.ends_with_newline c = true -> c = r ++ endl).
Proof.
  intros H. exists (strip_newline c). rewrite read_blob_run, H.
  split; [reflexivity|].
  destruct (strip_newline_cases c) as [[He Hs]|[He Hs]]; rewrite He;
    split; intros; congruence.
Qed.

Lemma read_existing_object_two_lines :
  exists r,
    read_blob (Str.replicate 32 "0") repository_with_text
      = (Value r, repository_with_text) /\
    (Str.ends_with_newline two_lines = false -> r = two_lines) /\
    (Str.ends_with_newline two_lines = true -> two_lines = r ++ endl).
Proof.
  apply (read_existing_object (Str.replicate 32 "0") two_lines repository_with_text).
  vm_compute. reflexivity.
Defined.

(** X2. Content that ends in a newline does not survive the round trip:
    what [read_blob] returns for the digest of [save_blob] is the content
    less that newline. *)
Theorem save_then_read_drops_newline
    (std_hash : string -> N) (c d : string) (w w' : Proc) :
  Str.ends_with_newline c = true ->
  save_blob std_hash c w = (Value d, w') -> d <> "" ->
  exists r, read_blob d w' = (Value r, w') /\ c = r ++ endl /\ r <> c.
Proof.
  intros He Hsave Hd.
  destruct (save_blob_success std_hash c w w' d Hsave Hd) as (_ & _ & ->).
  exists (strip_newline c). rewrite read_blob_run. unfold set_files. cbn [files].
  rewrite lookup_insert_eq. split; [reflexivity|].
  destruct (strip_newline_cases c) as [[He' _]|[_ Hs]]; [congruence|].
  split; [exact Hs|]. intros Heq. rewrite Heq in Hs.
  symmetry in Hs. now apply app_endl_neq in Hs.
Qed.

Lemma save_then_read_drops_newline_two_lines :
  let w' := snd (save_blob fnv1a two_lines fresh_repository) in
  exists r,
    read_blob (simple_hash_at fnv1a 0 two_lines) w' = (Value r, w') /\
    two_lines = r ++ endl /\ r <> two_lines.
Proof.
  apply (save_then_read_drops_newline fnv1a two_lines _ fresh_repository).
  - vm_compute. reflexivity.
  - vm_compute. reflexivity.
  - vm_compute. discriminate.
Defined.

(** X3. [save_blob] touches one path only, the one of the digest: every
    other entry, the permissions and the clock are as before, and a run that
    returns a digest prints nothing. *)
Theorem save_blob_touches_one_path
    (std_hash : string -> N) (c q : string) (w : Proc) :
  q <> blob_path (simple_hash_at std_hash (clock w) c) ->
  let run := save_blob std_hash c w in
  files (snd run) !! q = files w !! q /\
  readonly (snd run) = readonly w /\
  clock (snd run) = clock w /\
  (fst run <> Value "" -> log (snd run) = log w).
Proof.
  intros Hq. cbv zeta. rewrite save_blob_run. cbv zeta.
  destruct (opens_for_writing _ w); cbn [fst snd].
  - rewrite files_set_files, lookup_insert_ne by congruence. auto.
  - repeat split; congruence.
Qed.

Lemma save_blob_touches_one_path_head :
  let run := save_blob fnv1a "x" fresh_repository in
  files (snd run) !! head_path = files fresh_repository !! head_path /\
  readonly (snd run) = readonly fresh_repository /\
  clock (snd run) = clock fresh_repository /\
  (fst run <> Value "" -> log (snd run) = log fresh_repository).
Proof.
  apply (save_blob_touches_one_path fnv1a "x" head_path fresh_repository).
  vm_compute. discriminate.
Defined.

(** X4. [save_blob] returns a digest exactly when [objects] is a directory
    and the path of the digest is no directory and not protected; in every
    other state it returns the empty string. *)
Theorem save_blob_succeeds_iff (std_hash : string -> N) (c : string) (w : Proc) :
  let p := blob_path (simple_hash_at std_hash (clock w) c) in
  fst (save_blob std_hash c w) <> Value "" <->
  files w !! objects_path = Some Dir /\ files w !! p <> Some Dir /\ p ∉ readonly w.
Proof.
  cbv zeta. rewrite save_blob_run. cbv zeta.
  rewrite opens_for_writing_blob by apply simple_hash_at_no_slash.
  set (p := blob_path (simple_hash_at std_hash (clock w) c)).
  rewrite <- (is_dir_true objects_path), <- (is_dir_true p).
  destruct (is_dir p w), (is_dir objects_path w),
    (bool_decide_reflect (p ∈ readonly w)) as [Hr|Hr]; cbn [negb andb fst];
    split; try (intros H; now destruct H); try (intros (? & ? & ?); congruence);
    intros _.
  - repeat split; [discriminate | exact Hr].
  - intros H. injection H as H. now apply (simple_hash_at_nonempty std_hash) in H.
Qed.

(** X5. Of the 32 characters of a digest the first 16 are always [0]: the
    digest carries the 64 bits of one [size_t]. *)
Theorem digest_upper_half_zero (std_hash : string -> N) (t : Z) (c : string) :
  exists low,
    simple_hash_at std_hash t c = Str.replicate 16 "0" ++ low /\
    String.length low = 16.
Proof.
  unfold simple_hash_at, setw_fill.
  set (s := to_hex (hasher std_hash _)).
  assert (String.length s <= 16) as Hs by apply to_hex_length_64, wrap_size_t_lt.
  exists (Str.replicate (16 - String.length s) "0" ++ s). split.
  - rewrite <- StrFacts.app_assoc, <- replicate_add. do 2 f_equal. lia.
  - rewrite StrFacts.length_app, StrFacts.length_replicate. lia.
Qed.

(** X6. Printing the hash as a digest loses nothing: two digests are equal
    exactly when the hash function gives the same value on the two strings
    hashed, content followed by the second and by the hash of the content. *)
Theorem digests_collide_iff
    (std_hash : string -> N) (t1 t2 : Z) (c1 c2 : string) :
  simple_hash_at std_hash t1 c1 = simple_hash_at std_hash t2 c2 <->
  hasher std_hash (data_to_hash std_hash t1 c1)
  = hasher std_hash (data_to_hash std_hash t2 c2).
Proof.
  split; intros H.
  - rewrite <- !simple_hash_at_value. now rewrite H.
  - unfold simple_hash_at. fold (data_to_hash std_hash t1 c1).
    fold (data_to_hash std_hash t2 c2). now rewrite H.
Qed.

(** ** States: equality by parts *)

Lemma Proc_ext (w1 w2 : Proc) :
  files w1 = files w2 -> readonly w1 = readonly w2 -> cwd w1 = cwd w2 ->
  clock w1 = clock w2 -> log w1 = log w2 -> w1 = w2.
Proof. destruct w1, w2. cbn. now intros -> -> -> -> ->. Qed.

Lemma cwd_add_log e w : cwd (add_log e w) = cwd w.
Proof. reflexivity. Qed.

Lemma cwd_set_files f w : cwd (set_files f w) = cwd w.
Proof. reflexivity. Qed.

Lemma clock_add_log e w : clock (add_log e w) = clock w.
Proof. reflexivity. Qed.

Lemma clock_set_files f w : clock (set_files f w) = clock w.
Proof. reflexivity. Qed.

Ltac projections :=
  repeat first
    [ rewrite files_add_log | rewrite files_set_files
    | rewrite readonly_add_log | rewrite readonly_set_files
    | rewrite cwd_add_log | rewrite cwd_set_files
    | rewrite clock_add_log | rewrite clock_set_files
    | rewrite log_add_log | rewrite log_set_files ].

Ltac same_state := apply Proc_ext; projections; try reflexivity.

(** ** Initialising: further properties *)

Section InitMore.

Variable mkdir_throws : bool.

Lemma writable_root w :
  writable minigit_dir_name w = negb (bool_decide (minigit_dir_name ∈ readonly w)).
Proof. reflexivity. Qed.

Lemma writable_objects w :
  writable objects_path w
  = is_dir minigit_dir_name w && negb (bool_decide (objects_path ∈ readonly w)).
Proof. reflexivity. Qed.

Lemma writable_refs w :
  writable refs_path w
  = is_dir minigit_dir_name w && negb (bool_decide (refs_path ∈ readonly w)).
Proof. reflexivity. Qed.

Lemma writable_heads w :
  writable heads_path w
  = is_dir refs_path w && negb (bool_decide (heads_path ∈ readonly w)).
Proof. reflexivity. Qed.

Lemma errors_app_cout (l : list event) (k : list event) :
  Forall (fun e => exists s, e = Cout s) k ->
  omap (fun e => match e with Cerr s => Some s | Cout _ => None end) (l ++ k)%list
  = omap (fun e => match e with Cerr s => Some s | Cout _ => None end) l.
Proof.
  intros Hk. rewrite omap_app. induction Hk as [|e k [s ->] _ IH].
  - apply app_nil_r.
  - exact IH.
Qed.

Ltac known :=
  repeat match goal with
         | E : files _ !! _ = _ |- _ => rewrite E
         | E : bool_decide _ = _ |- _ => rewrite E
         end.

Ltac lookups :=
  autorewrite with proc;
  repeat (rewrite lookup_insert_eq || rewrite lookup_insert_ne by discriminate);
  known.

Ltac decided := lookups; cbn [andb negb orb]; cbv beta iota.

Ltac block lem writable_lem :=
  rewrite bind_run, lem; lookups;
  unfold opens_for_writing; try (rewrite writable_lem); unfold is_dir; decided.

Lemma vacant_at (w : Proc) (q : string) :
  vacant w -> q ∈ init_paths ->
  files w !! q = None /\ bool_decide (q ∈ readonly w) = false.
Proof.
  intros Hv Hq. destruct (Hv q Hq) as [Hn Hr].
  split; [exact Hn | now apply bool_decide_false].
Qed.

Ltac in_paths :=
  unfold init_paths, init_directories; cbn [app];
  repeat first [left | right].

(** The run of [init] in a vacant working directory. *)
Lemma init_vacant_run (w : Proc) :
  vacant w -> init mkdir_throws w = (Value tt, made_repository w).
Proof.
  intros Hv.
  destruct (vacant_at w minigit_dir_name Hv ltac:(in_paths)) as [F1 R1].
  destruct (vacant_at w objects_path Hv ltac:(in_paths)) as [F2 R2].
  destruct (vacant_at w refs_path Hv ltac:(in_paths)) as [F3 R3].
  destruct (vacant_at w heads_path Hv ltac:(in_paths)) as [F4 R4].
  destruct (vacant_at w head_path Hv ltac:(in_paths)) as [F5 R5].
  destruct (vacant_at w main_branch_path Hv ltac:(in_paths)) as [F6 R6].
  unfold init.
  rewrite bind_run, cout_run. cbv beta iota.
  block init_root_run writable_root.
  block (ensure_directory_run mkdir_throws objects_path) writable_objects.
  block (ensure_directory_run mkdir_throws refs_path) writable_refs.
  block (ensure_directory_run mkdir_throws heads_path) writable_heads.
  block init_head_run writable_head.
  block init_main_branch_run writable_main.
  rewrite cout_run. apply (f_equal (pair (Value tt))).
  same_state. cbn [made_repository log]. rewrite <- !app_assoc. reflexivity.
Qed.

Lemma opens_for_writing_parts (p d : string) (w : Proc) :
  writable p w = is_dir d w && negb (bool_decide (p ∈ readonly w)) ->
  opens_for_writing p w = true ->
  files w !! p <> Some Dir /\ files w !! d = Some Dir /\
  bool_decide (p ∈ readonly w) = false.
Proof.
  intros Hw Ho. apply opens_for_writing_true in Ho as [Hp Ho].
  rewrite Hw in Ho. apply andb_true_iff in Ho as [Hd Hr].
  apply is_dir_true in Hd. apply negb_true_iff in Hr. auto.
Qed.

(** The run of [init] in a repository. *)
Lemma init_initialised_run (w : Proc) :
  initialised w -> init mkdir_throws w = (Value tt, reinitialised w).
Proof.
  intros (F1 & [n2 F2] & [n3 F3] & F4 & O5 & O6).
  destruct (opens_for_writing_parts _ _ _ (writable_head w) O5) as (F5 & _ & R5).
  destruct (opens_for_writing_parts _ _ _ (writable_main w) O6) as (F6 & _ & R6).
  unfold init.
  rewrite bind_run, cout_run. cbv beta iota.
  block init_root_run writable_root.
  block (ensure_directory_run mkdir_throws objects_path) writable_objects.
  block (ensure_directory_run mkdir_throws refs_path) writable_refs.
  block (ensure_directory_run mkdir_throws heads_path) writable_heads.
  rewrite bind_run, init_head_run.
  match goal with
  | |- context [opens_for_writing head_path ?W] =>
      assert (opens_for_writing head_path W = true) as ->
  end.
  { unfold opens_for_writing. rewrite writable_head. unfold is_dir. lookups.
    destruct (files w !! head_path) as [[|c]|]; [congruence | |];
      reflexivity. }
  cbv beta iota.
  rewrite bind_run, init_main_branch_run.
  match goal with
  | |- context [opens_for_writing main_branch_path ?W] =>
      assert (opens_for_writing main_branch_path W = true) as ->
  end.
  { unfold opens_for_writing. rewrite writable_main. unfold is_dir. lookups.
    destruct (files w !! main_branch_path) as [[|c]|]; [congruence | |];
      reflexivity. }
  cbv beta iota. rewrite cout_run. apply (f_equal (pair (Value tt))).
  same_state. cbn [reinitialised log reinit_lines].
  rewrite <- !app_assoc. reflexivity.
Qed.

Lemma errors_reinitialised (w : Proc) : errors (reinitialised w) = errors w.
Proof. unfold errors. cbn [reinitialised log]. apply errors_app_cout.
  unfold reinit_lines. repeat constructor; eauto. Qed.

Lemma errors_made_repository (w : Proc) : errors (made_repository w) = errors w.
Proof. unfold errors. cbn [made_repository log]. apply errors_app_cout.
  unfold first_init_lines. repeat constructor; eauto. Qed.

(** What a run of [init] without errors leaves. *)
Lemma init_succeeded_state (w w' : Proc) :
  init mkdir_throws w = (Value tt, w') -> errors w' = errors w ->
  initialised w' /\
  files w' !! head_path = Some (File head_line) /\
  files w' !! main_branch_path = Some (File "").
Proof.
  intros Hrun He.
  destruct (init_passes _ _ _ Hrun) as [w0 w1 w2 w3 w4 w5 w6 H0 H1 H2 H3 H4 H5 H6 H7].
  pose proof (grows_add_log (Cout "Initializing MiniGit repository...") w) as G0.
  rewrite <- H0 in G0.
  pose proof (init_root_grows mkdir_throws w0) as G1. rewrite H1 in G1.
  pose proof (ensure_directory_grows mkdir_throws objects_path w1) as G2. rewrite H2 in G2.
  pose proof (ensure_directory_grows mkdir_throws refs_path w2) as G3. rewrite H3 in G3.
  pose proof (ensure_directory_grows mkdir_throws heads_path w3) as G4. rewrite H4 in G4.
  pose proof (init_head_grows w4) as G5. rewrite H5 in G5.
  pose proof (init_main_branch_grows w5) as G6. rewrite H6 in G6.
  pose proof (grows_add_log (Cout "MiniGit repository initialized successfully!") w6) as G7.
  rewrite <- H7 in G7. cbn [snd] in *.
  assert (grows w1 w') as G1' by eauto 10 using grows_trans.
  assert (grows w2 w') as G2' by eauto 10 using grows_trans.
  assert (grows w3 w') as G3' by eauto using grows_trans.
  assert (grows w4 w') as G4' by eauto using grows_trans.
  assert (grows w5 w') as G5' by eauto using grows_trans.
  assert (length (errors w4) = length (errors w5) /\
          length (errors w5) = length (errors w6)) as [L5 L6].
  { destruct G0 as (_ & _ & _ & ?), G1 as (_ & _ & _ & ?), G2 as (_ & _ & _ & ?),
      G3 as (_ & _ & _ & ?), G4 as (_ & _ & _ & ?), G5 as (_ & _ & _ & ?),
      G6 as (_ & _ & _ & ?), G7 as (_ & _ & _ & ?).
    rewrite He in *. lia. }
  destruct (init_root_ok _ _ _ H1) as [S1 _].
  destruct (ensure_directory_ok _ _ _ _ H2) as [S2 _].
  destruct (ensure_directory_ok _ _ _ _ H3) as [S3 _].
  destruct (init_head_cases w4) as [[Oh Hh]|[_ Hh]]; rewrite H5 in Hh; cbn [snd] in Hh;
    [|lia].
  destruct (init_main_branch_cases w5) as [[Om Hm]|[_ Hm]]; rewrite H6 in Hm;
    cbn [snd] in Hm; [|lia].
  destruct (opens_for_writing_parts _ _ _ (writable_head w4) Oh) as (_ & _ & Rh).
  destruct (opens_for_writing_parts _ _ _ (writable_main w5) Om) as (_ & Dm & Rm).
  pose proof (init_main_branch_keeps head_path ltac:(discriminate) w5) as K.
  rewrite H6 in K. cbn [snd] in K.
  assert (files w' !! head_path = Some (File head_line)) as Fh.
  { rewrite H7, files_add_log, K. exact Hh. }
  assert (files w' !! main_branch_path = Some (File "")) as Fm.
  { rewrite H7, files_add_log. exact Hm. }
  assert (files w' !! minigit_dir_name = Some Dir) as Fr.
  { now apply G1'. }
  assert (files w' !! heads_path = Some Dir) as Fd.
  { now apply G5'. }
  destruct G4' as (R4 & _), G5' as (R5 & _).
  split; [|split; [exact Fh | exact Fm]].
  unfold initialised. repeat split.
  - exact Fr.
  - now apply G2'.
  - now apply G3'.
  - exact Fd.
  - unfold opens_for_writing. rewrite writable_head. unfold is_dir.
    now rewrite Fh, Fr, R4, Rh.
  - unfold opens_for_writing. rewrite writable_main. unfold is_dir.
    now rewrite Fm, Fd, R5, Rm.
Qed.

(** Whatever the run, nothing is removed, no directory is replaced and no
    permission changes. *)
Lemma init_grows (w : Proc) : grows w (snd (init mkdir_throws w)).
Proof.
  unfold init.
  repeat (apply grows_bind; [|intros _]; intros);
    auto using cout_grows, init_root_grows, ensure_directory_grows,
      init_head_grows, init_main_branch_grows.
Qed.

Lemma alters_only_bind {A B : Type} (spared : list string)
    (m : Cmd A) (k : A -> Cmd B) :
  alters_only spared m -> (forall a, alters_only spared (k a)) ->
  alters_only spared (m ≫= k).
Proof.
  intros Hm Hk w q Hq Hs. rewrite bind_run. specialize (Hm w q Hq Hs).
  destruct (m w) as [[a| |e] w1]; cbn [snd] in *; try exact Hm.
  rewrite Hk; [exact Hm | exact Hq | now rewrite Hm].
Qed.

Lemma keeps_present_alters_only {A : Type} (spared : list string) (c : Cmd A) :
  keeps_present c -> alters_only spared c.
Proof. intros H w q _ Hs. now apply H. Qed.

Lemma keeps_alters_only {A : Type} (p : string) (spared : list string) (c : Cmd A) :
  p ∈ spared -> (forall q, q <> p -> keeps q c) -> alters_only spared c.
Proof.
  intros Hp H w q Hq _. apply H. intros ->. now apply Hq.
Qed.

Lemma init_alters_only :
  alters_only [head_path; main_branch_path] (init mkdir_throws).
Proof.
  unfold init.
  apply alters_only_bind;
    [apply keeps_present_alters_only, cout_keeps_present | intros _].
  apply alters_only_bind;
    [apply keeps_present_alters_only, init_root_keeps_present | intros _].
  do 3 (apply alters_only_bind;
    [apply keeps_present_alters_only, ensure_directory_keeps_present | intros _]).
  apply alters_only_bind;
    [apply (keeps_alters_only head_path); [left | apply init_head_keeps] | intros _].
  apply alters_only_bind;
    [apply (keeps_alters_only main_branch_path);
       [right; left | apply init_main_branch_keeps] | intros _].
  apply keeps_present_alters_only, cout_keeps_present.
Qed.

Lemma init_keeps (q : string) : q ∉ init_paths -> keeps q (init mkdir_throws).
Proof.
  unfold init_paths, init_directories. cbn [app]. rewrite !not_elem_of_cons.
  intros (N1 & N2 & N3 & N4 & N5 & N6 & _). unfold init.
  apply keeps_bind; [apply cout_keeps | intros _].
  apply keeps_bind; [now apply init_root_keeps | intros _].
  do 3 (apply keeps_bind; [now apply ensure_directory_keeps | intros _]).
  apply keeps_bind; [now apply init_head_keeps | intros _].
  apply keeps_bind; [now apply init_main_branch_keeps | intros _].
  apply cout_keeps.
Qed.

Lemma blob_path_not_init_path (h : string) : blob_path h ∉ init_paths.
Proof.
  unfold init_paths, init_directories. cbn [app]. rewrite !not_elem_of_cons.
  repeat split; try apply not_elem_of_nil;
    intros H; vm_compute in H; discriminate.
Qed.

End InitMore.

(** ** Initialising: the layout *)

Section Layout.

Variable mkdir_throws : bool.





End Layout.





(** X7. In a working directory where none of its six paths exists and none
    is protected, [init] runs to its end without an error, makes the four
    directories, HEAD with its one line and the empty branch file, changes
    nothing else, and prints its eight lines. *)
Theorem init_makes_repository (mkdir_throws : bool) (w : Proc) :
  vacant w ->
  let run := init mkdir_throws w in
  fst run = Value tt /\
  errors (snd run) = errors w /\
  files (snd run) =
    <[main_branch_path := File ""]>
      (<[head_path := File head_line]>
         (<[heads_path := Dir]>
            (<[refs_path := Dir]>
               (<[objects_path := Dir]>
                  (<[minigit_dir_name := Dir]> (files w)))))) /\
  log (snd run) = (log w ++ first_init_lines)%list.
Proof.
  intros Hv. cbv zeta. rewrite (init_vacant_run mkdir_throws w Hv). cbn [fst snd].
  rewrite errors_made_repository. repeat split; reflexivity.
Qed.

Lemma init_makes_repository_empty :
  let run := init true (initial ∅) in
  fst run = Value tt /\
  errors (snd run) = errors (initial ∅) /\
  files (snd run) =
    <[main_branch_path := File ""]>
      (<[head_path := File head_line]>
         (<[heads_path := Dir]>
            (<[refs_path := Dir]>
               (<[objects_path := Dir]>
                  (<[minigit_dir_name := Dir]> (files (initial ∅))))))) /\
  log (snd run) = (log (initial ∅) ++ first_init_lines)%list.
Proof.
  apply (init_makes_repository true (initial ∅)).
  intros q _. split; [apply lookup_empty | apply not_elem_of_empty].
Defined.

(** X8. In a repository (the directories are there, HEAD and the branch
    file can be opened) [init] runs to its end without an error, puts its
    one line in HEAD, empties the branch file whatever it recorded, changes
    nothing else, and prints its five lines. *)
Theorem reinit_resets_head_and_branch (mkdir_throws : bool) (w : Proc) :
  initialised w ->
  let run := init mkdir_throws w in
  fst run = Value tt /\
  errors (snd run) = errors w /\
  files (snd run) =
    <[main_branch_path := File ""]> (<[head_path := File head_line]> (files w)) /\
  log (snd run) = (log w ++ reinit_lines w)%list.
Proof.
  intros Hi. cbv zeta. rewrite (init_initialised_run mkdir_throws w Hi).
  cbn [fst snd]. rewrite errors_reinitialised. repeat split; reflexivity.
Qed.

Lemma reinit_resets_head_and_branch_commit :
  let run := init true repository_with_commit in
  fst run = Value tt /\
  errors (snd run) = errors repository_with_commit /\
  files (snd run) =
    <[main_branch_path := File ""]>
      (<[head_path := File head_line]> (files repository_with_commit)) /\
  log (snd run) = (log repository_with_commit ++ reinit_lines repository_with_commit)%list.
Proof.
  apply (reinit_resets_head_and_branch true repository_with_commit).
  unfold initialised. repeat split; try (vm_compute; reflexivity);
    eexists; vm_compute; reflexivity.
Defined.

(** X9. [init] can be run again: after a run without errors, a second run
    is again without errors and leaves every entry as the first left it. *)
Theorem init_twice (mkdir_throws : bool) (w : Proc) :
  init_succeeded w (init mkdir_throws w) ->
  let w1 := snd (init mkdir_throws w) in
  init_succeeded w1 (init mkdir_throws w1) /\
  files (snd (init mkdir_throws w1)) = files w1.
Proof.
  destruct (init mkdir_throws w) as [r w1] eqn:Hrun. intros [Hr He].
  cbn [fst snd] in *. subst r.
  destruct (init_succeeded_state mkdir_throws w w1 Hrun He) as (Hi & Fh & Fm).
  rewrite (init_initialised_run mkdir_throws w1 Hi). unfold init_succeeded.
  cbn [fst snd]. rewrite errors_reinitialised. repeat split.
  cbn [reinitialised files].
  rewrite (insert_id (files w1) head_path) by exact Fh.
  now apply insert_id.
Qed.

Lemma init_twice_empty :
  let w1 := snd (init true (initial ∅)) in
  init_succeeded w1 (init true w1) /\ files (snd (init true w1)) = files w1.
Proof.
  apply (init_twice true (initial ∅)). split; vm_compute; reflexivity.
Defined.

(** X10. Whatever the run of [init], an entry that is there stays there, a
    directory stays a directory, apart from HEAD and the branch file every
    entry stays as it is, and no permission changes. *)
Theorem init_spares_entries (mkdir_throws : bool) (w : Proc) (q : string) :
  is_Some (files w !! q) ->
  let w' := snd (init mkdir_throws w) in
  is_Some (files w' !! q) /\
  (files w !! q = Some Dir -> files w' !! q = Some Dir) /\
  (q <> head_path -> q <> main_branch_path -> files w' !! q = files w !! q) /\
  readonly w' = readonly w.
Proof.
  intros Hq. cbv zeta.
  destruct (init_grows mkdir_throws w) as (R & D & S & _).
  repeat split; auto.
  intros N1 N2. apply init_alters_only; [|exact Hq].
  rewrite !not_elem_of_cons. repeat split; auto using not_elem_of_nil.
Qed.

Lemma init_spares_entries_objects :
  let w' := snd (init false protected_objects) in
  is_Some (files w' !! minigit_dir_name) /\
  (files protected_objects !! minigit_dir_name = Some Dir ->
   files w' !! minigit_dir_name = Some Dir) /\
  (minigit_dir_name <> head_path -> minigit_dir_name <> main_branch_path ->
   files w' !! minigit_dir_name = files protected_objects !! minigit_dir_name) /\
  readonly w' = readonly protected_objects.
Proof.
  apply (init_spares_entries false protected_objects minigit_dir_name).
  eexists. vm_compute. reflexivity.
Defined.

(** X11. [init] never touches the stored objects. For a hash without a
    slash, [read_blob] returns the same after any run of [init] as before;
    and when the hash is the name of an entry, [objects/<hash>] is an entry
    of the directory [objects] that is the same after the run as before. *)
Theorem init_spares_objects (mkdir_throws : bool) (hash : string) (w : Proc) :
  Str.mem Str.slash hash = false ->
  let w' := snd (init mkdir_throws w) in
  fst (read_blob hash w') = fst (read_blob hash w) /\
  parent_path (blob_path hash) = objects_path /\
  (is_entry_name hash -> files w' !! blob_path hash = files w !! blob_path hash).
Proof.
  intros Hs. cbv zeta.
  pose proof (init_keeps mkdir_throws (blob_path hash)
                (blob_path_not_init_path hash) w) as K.
  split; [|split; [now apply parent_path_blob | intros _; exact K]].
  rewrite !read_blob_run, K.
  now destruct (files w !! blob_path hash) as [[|c]|].
Qed.

Lemma init_spares_objects_text :
  let w' := snd (init true repository_with_text) in
  fst (read_blob (Str.replicate 32 "0") w')
    = fst (read_blob (Str.replicate 32 "0") repository_with_text) /\
  parent_path (blob_path (Str.replicate 32 "0")) = objects_path /\
  (is_entry_name (Str.replicate 32 "0") ->
   files w' !! blob_path (Str.replicate 32 "0")
     = files repository_with_text !! blob_path (Str.replicate 32 "0")).
Proof.
  apply (init_spares_objects true (Str.replicate 32 "0") repository_with_text).
  reflexivity.
Defined.

(** X12. When a regular file has the name of the repository directory, or
    the directory is absent and protected, [init] changes no entry at all:
    it ends in the library's exception, or in [return;] after one line on
    [std::cerr]. *)
Theorem init_stops_at_blocked_root (mkdir_throws : bool) (w : Proc) :
  root_blocked w ->
  let run := init mkdir_throws w in
  fst run = (if mkdir_throws then Thrown minigit_dir_name else Returned) /\
  files (snd run) = files w /\
  errors (snd run) =
    (if mkdir_throws then errors w
     else errors w ++ ["Error: Could not create directory .minigit"])%list.
Proof.
  intros Hb. cbv zeta. unfold init.
  rewrite bind_run, cout_run. cbv beta iota.
  rewrite bind_run, init_root_run, files_add_log.
  assert (forall W, files W = files w -> errors W = errors w ->
            let run := mkdir_failure mkdir_throws minigit_dir_name W in
            match run with
            | (Value _, w1) => False
            | (r, w1) =>
                r = (if mkdir_throws then Thrown minigit_dir_name else Returned) /\
                files w1 = files w /\
                errors w1 =
                  (if mkdir_throws then errors w
                   else errors w ++ ["Error: Could not create directory .minigit"])%list
            end) as Hfail.
  { intros W HF HE. unfold mkdir_failure. destruct mkdir_throws; cbv zeta.
    - auto.
    - rewrite files_add_log, errors_cerr, HF, HE. auto. }
  set (W := add_log (Cout "Initializing MiniGit repository...") w).
  specialize (Hfail W eq_refl (errors_cout _ w)). cbv zeta in Hfail.
  destruct Hb as [[c Hc]|[Hn Hr]].
  - rewrite Hc.
    destruct (mkdir_failure mkdir_throws minigit_dir_name W) as [[[]| |e] w1];
      [contradiction | |]; destruct Hfail as (Hr & HF & HE); cbn [fst snd]; auto.
  - rewrite Hn.
    assert (writable minigit_dir_name W = false) as ->.
    { apply protected_not_writable. exact Hr. }
    destruct (mkdir_failure mkdir_throws minigit_dir_name W) as [[[]| |e] w1];
      [contradiction | |]; destruct Hfail as (Hr' & HF & HE); cbn [fst snd]; auto.
Qed.

Lemma init_stops_at_blocked_root_file :
  let run := init false (initial {[minigit_dir_name := File "notes"]}) in
  fst run = Returned /\
  files (snd run) = files (initial {[minigit_dir_name := File "notes"]}) /\
  errors (snd run) =
    (errors (initial {[minigit_dir_name := File "notes"]})
     ++ ["Error: Could not create directory .minigit"])%list.
Proof.
  apply (init_stops_at_blocked_root false
           (initial {[minigit_dir_name := File "notes"]})).
  left. eexists. vm_compute. reflexivity.
Defined.

(** X13. A HEAD that cannot be opened does not stop [init]: a run that got
    past its directories where HEAD is a directory or protected prints
    the error line for HEAD, leaves HEAD as it was, goes on to the branch
    file and ends with its closing line. *)
Theorem failed_head_is_not_fatal (mkdir_throws : bool) (w : Proc) :
  fst (init mkdir_throws w) = Value tt ->
  files w !! head_path = Some Dir \/ head_path ∈ readonly w ->
  let w' := snd (init mkdir_throws w) in
  "Error: Could not create HEAD file." ∈ errors w' /\
  files w' !! head_path = files w !! head_path /\
  (files w' !! main_branch_path = Some (File "") \/
   "Error: Could not create main branch file." ∈ errors w') /\
  last (log w') = Some (Cout "MiniGit repository initialized successfully!").
Proof.
  destruct (init mkdir_throws w) as [r w'] eqn:Hrun. cbn [fst snd].
  intros -> Hwhy.
  destruct (init_passes _ _ _ Hrun) as [w0 w1 w2 w3 w4 w5 w6 H0 H1 H2 H3 H4 H5 H6 H7].
  pose proof (init_root_grows mkdir_throws w0) as G1. rewrite H1 in G1.
  pose proof (ensure_directory_grows mkdir_throws objects_path w1) as G2. rewrite H2 in G2.
  pose proof (ensure_directory_grows mkdir_throws refs_path w2) as G3. rewrite H3 in G3.
  pose proof (ensure_directory_grows mkdir_throws heads_path w3) as G4. rewrite H4 in G4.
  cbn [snd] in *.
  assert (grows w0 w4) as (R & _) by eauto using grows_trans.
  pose proof (init_root_keeps mkdir_throws head_path ltac:(discriminate) w0) as K1.
  pose proof (ensure_directory_keeps mkdir_throws objects_path head_path
                ltac:(discriminate) w1) as K2.
  pose proof (ensure_directory_keeps mkdir_throws refs_path head_path
                ltac:(discriminate) w2) as K3.
  pose proof (ensure_directory_keeps mkdir_throws heads_path head_path
                ltac:(discriminate) w3) as K4.
  pose proof (init_main_branch_keeps head_path ltac:(discriminate) w5) as K6.
  rewrite H1 in K1. rewrite H2 in K2. rewrite H3 in K3. rewrite H4 in K4.
  rewrite H6 in K6. cbn [snd] in *.
  assert (files w4 !! head_path = files w !! head_path) as K.
  { now rewrite K4, K3, K2, K1, H0, files_add_log. }
  assert (opens_for_writing head_path w4 = false) as Ho.
  { unfold opens_for_writing. destruct Hwhy as [Hd|Hr].
    - unfold is_dir at 1. now rewrite K, Hd.
    - rewrite protected_not_writable; [apply andb_false_r|].
      now rewrite R, H0, readonly_add_log. }
  rewrite init_head_run, Ho in H5. injection H5 as H5.
  rewrite init_main_branch_run in H6.
  assert ("Error: Could not create HEAD file." ∈ errors w5) as E5.
  { rewrite <- H5, errors_cerr. apply elem_of_app. right. now left. }
  assert (files w5 !! head_path = files w !! head_path) as F5.
  { now rewrite <- H5, files_add_log. }
  split; [|split; [|split]].
  - rewrite H7, errors_cout.
    destruct (opens_for_writing main_branch_path w5); injection H6 as <-.
    + now rewrite errors_cout, errors_set_files.
    + rewrite errors_cerr. apply elem_of_app. now left.
  - now rewrite H7, files_add_log, K6.
  - rewrite H7, files_add_log, errors_cout.
    destruct (opens_for_writing main_branch_path w5); injection H6 as <-.
    + left. now rewrite files_add_log, files_set_files, lookup_insert_eq.
    + right. rewrite errors_cerr. apply elem_of_app. right. now left.
  - rewrite H7, log_add_log. apply last_snoc.
Qed.

Lemma failed_head_is_not_fatal_directory :
  let w' := snd (init true repository_with_head_directory) in
  "Error: Could not create HEAD file." ∈ errors w' /\
  files w' !! head_path = files repository_with_head_directory !! head_path /\
  (files w' !! main_branch_path = Some (File "") \/
   "Error: Could not create main branch file." ∈ errors w') /\
  last (log w') = Some (Cout "MiniGit repository initialized successfully!").
Proof.
  apply (failed_head_is_not_fatal true repository_with_head_directory).
  - vm_compute. reflexivity.
  - left. vm_compute. reflexivity.
Defined.

(** ** The command line: lemmas *)

Lemma total_bind {A B : Type} (m : Cmd A) (k : A -> Cmd B) :
  total m -> (forall a, total (k a)) -> total (m ≫= k).
Proof.
  intros Hm Hk w. rewrite bind_run. destruct (Hm w) as [a Ha].
  destruct (m w) as [[a'| |e] w1]; cbn [fst] in Ha; try discriminate.
  apply Hk.
Qed.

Lemma mret_total {A : Type} (a : A) : total (mret a : Cmd A).
Proof. intros w. now exists a. Qed.

Lemma read_blob_total (hash : string) : total (read_blob hash).
Proof.
  intros w. rewrite read_blob_run.
  destruct (files w !! blob_path hash) as [[|c]|]; eauto.
Qed.

Lemma files_stored c d w : files (stored c d w) = <[blob_path d := File c]> (files w).
Proof. reflexivity. Qed.

Lemma errors_stored c d w : errors (stored c d w) = errors w.
Proof.
  unfold errors. cbn [stored log]. apply errors_app_cout.
  unfold blob_report. repeat constructor; eauto.
Qed.

Lemma blob_path_not_objects (h : string) : blob_path h <> objects_path.
Proof. intros H. vm_compute in H. discriminate. Qed.

Lemma store_usable_stored c d w : store_usable w -> store_usable (stored c d w).
Proof.
  intros [Ho Hb]. split.
  - rewrite files_stored, lookup_insert_ne by apply blob_path_not_objects.
    exact Ho.
  - intros h Hh. destruct (Hb h Hh) as [Hd Hr]. split; [|exact Hr].
    rewrite files_stored. destruct (decide (blob_path d = blob_path h)) as [->|Hne].
    + rewrite lookup_insert_eq. discriminate.
    + now rewrite lookup_insert_ne.
Qed.

Lemma store_usable_later s w : store_usable w -> store_usable (later s w).
Proof. intros H. exact H. Qed.

Lemma clock_advances_run (s : Z) (w : Proc) :
  clock_advances s w = (Value tt, later s w).
Proof. reflexivity. Qed.

Lemma mret_run {A : Type} (a : A) (w : Proc) : (mret a : Cmd A) w = (Value a, w).
Proof. reflexivity. Qed.

Section MainFacts.

Variable std_hash : string -> N.
Variable mkdir_throws : bool.
Variables pause2 pause3 : Z.

Lemma save_blob_total (c : string) : total (save_blob std_hash c).
Proof.
  intros w. rewrite save_blob_run. cbv zeta.
  destruct (opens_for_writing _ w); eauto.
Qed.

Lemma test_one_blob_total (c : string) : total (test_one_blob std_hash c).
Proof.
  unfold test_one_blob.
  apply total_bind; [apply save_blob_total | intros hash].
  apply total_bind; [apply cout_total | intros _].
  apply total_bind; [apply read_blob_total | intros r].
  apply total_bind; [apply cout_total | intros _].
  apply total_bind; [apply cout_total | intros _].
  apply mret_total.
Qed.

Lemma clock_advances_total (s : Z) : total (clock_advances s).
Proof. intros w. now exists tt. Qed.

Lemma test_blob_total : total (test_blob std_hash pause2 pause3).
Proof.
  unfold test_blob.
  apply total_bind; [apply cout_total | intros _].
  apply total_bind; [apply test_one_blob_total | intros h1].
  apply total_bind; [apply cout_total | intros _].
  apply total_bind; [apply clock_advances_total | intros _].
  apply total_bind; [apply test_one_blob_total | intros h2].
  apply total_bind; [apply cout_total | intros _].
  apply total_bind; [apply clock_advances_total | intros _].
  apply total_bind; [apply test_one_blob_total | intros h3].
  apply cout_total.
Qed.

Lemma store_usable_opens (w : Proc) (t : Z) (c : string) :
  store_usable w ->
  opens_for_writing (blob_path (simple_hash_at std_hash t c)) w = true.
Proof.
  intros [Ho Hb].
  pose proof (simple_hash_at_no_slash std_hash t c) as Hs.
  destruct (Hb _ Hs) as [Hd Hr].
  rewrite opens_for_writing_blob by exact Hs.
  rewrite (proj2 (is_dir_true objects_path w) Ho), bool_decide_false by exact Hr.
  unfold is_dir.
  now destruct (files w !! blob_path (simple_hash_at std_hash t c)) as [[|x]|].
Qed.

(** One blob of [test_blob] in a store that can be written. *)
Lemma test_one_blob_stored (c : string) (w : Proc) :
  store_usable w ->
  test_one_blob std_hash c w
  = (Value (simple_hash_at std_hash (clock w) c),
     stored c (simple_hash_at std_hash (clock w) c) w).
Proof.
  intros Hu. unfold test_one_blob.
  rewrite bind_run, save_blob_run. cbv zeta.
  rewrite store_usable_opens by exact Hu. cbv beta iota.
  rewrite bind_run, cout_run. cbv beta iota.
  rewrite bind_run, read_blob_run, files_add_log, files_set_files, lookup_insert_eq.
  cbv beta iota.
  rewrite bind_run, cout_run. cbv beta iota.
  rewrite bind_run, cout_run. cbv beta iota.
  apply (f_equal (pair (Value (simple_hash_at std_hash (clock w) c)))).
  same_state. cbn [stored log blob_report]. rewrite <- !app_assoc. reflexivity.
Qed.

(** One blob of [test_blob] where there is no [objects] directory. *)
Lemma test_one_blob_not_stored (c : string) (w : Proc) :
  is_dir objects_path w = false -> files w !! blob_path "" = None ->
  test_one_blob std_hash c w
  = (Value "", not_stored c (simple_hash_at std_hash (clock w) c) w).
Proof.
  intros Ho Hn. unfold test_one_blob.
  rewrite bind_run, save_blob_run. cbv zeta.
  rewrite opens_for_writing_blob by apply simple_hash_at_no_slash.
  rewrite Ho, andb_false_r. cbv beta iota.
  rewrite bind_run, cout_run. cbv beta iota.
  rewrite bind_run, read_blob_run, !files_add_log, Hn. cbv beta iota.
  rewrite bind_run, cout_run. cbv beta iota.
  rewrite bind_run, cout_run. cbv beta iota.
  apply (f_equal (pair (Value ""))).
  same_state. cbn [not_stored log failed_blob_report].
  rewrite <- !app_assoc. reflexivity.
Qed.

End MainFacts.

Lemma log_stored c d w :
  log (stored c d w)
  = (log w ++ blob_report c d (strip_newline c) (String.eqb c (strip_newline c)))%list.
Proof. reflexivity. Qed.

Lemma clock_stored c d w : clock (stored c d w) = clock w.
Proof. reflexivity. Qed.

Lemma files_not_stored c d w : files (not_stored c d w) = files w.
Proof. reflexivity. Qed.

Lemma log_not_stored c d w :
  log (not_stored c d w) = (log w ++ failed_blob_report c d)%list.
Proof. reflexivity. Qed.

Lemma clock_not_stored c d w : clock (not_stored c d w) = clock w.
Proof. reflexivity. Qed.

Lemma files_later s w : files (later s w) = files w.
Proof. reflexivity. Qed.

Lemma log_later s w : log (later s w) = log w.
Proof. reflexivity. Qed.

Lemma clock_later s w : clock (later s w) = (clock w + s)%Z.
Proof. reflexivity. Qed.

Ltac through_test_blob :=
  repeat first
    [ rewrite files_add_log | rewrite files_stored | rewrite files_not_stored
    | rewrite files_later
    | rewrite log_add_log | rewrite log_stored | rewrite log_not_stored
    | rewrite log_later
    | rewrite clock_add_log | rewrite clock_stored | rewrite clock_not_stored
    | rewrite clock_later ].

(** X14. The exit code of [main] is 1 when no command is given; with a
    command it is 0, also for an unknown command and for an [init] that gave
    up, unless an exception of [init] ends the program. *)
Theorem main_exit_code
    (std_hash : string -> N) (mkdir_throws : bool) (pause2 pause3 : Z)
    (args : list string) (w : Proc) :
  let run := main std_hash mkdir_throws pause2 pause3 args w in
  match args with
  | [] => fst run = Value 1%Z
  | command :: _ =>
      fst run = Value 0%Z \/
      (mkdir_throws = true /\ command = "init" /\ exists q, fst run = Thrown q)
  end.
Proof.
  cbv zeta. destruct args as [|command rest]; [reflexivity|].
  unfold main. rewrite bind_run.
  destruct (String.eqb command "init") eqn:Hinit.
  - apply String.eqb_eq in Hinit.
    pose proof (init_stops mkdir_throws w) as Hs.
    unfold call.
    destruct (init mkdir_throws w) as [[[]| |e] w1]; cbn [fst snd] in *;
      [now left | now left |].
    right. destruct Hs as [q Hq]; [discriminate|].
    destruct mkdir_throws; [eauto | now destruct Hq].
  - left. destruct (String.eqb command "test_blob").
    + destruct (test_blob_total std_hash pause2 pause3 w) as [[] Ht].
      destruct (test_blob std_hash pause2 pause3 w) as [[[]| |e] w1];
        cbn [fst] in Ht; [reflexivity | discriminate | discriminate].
    + reflexivity.
Qed.

Lemma fresh_repository_usable : store_usable fresh_repository.
Proof.
  split; [vm_compute; reflexivity|].
  intros h _. split; [|apply not_elem_of_empty].
  pose proof (init_keeps true (blob_path h) (blob_path_not_init_path h) (initial ∅))
    as K.
  unfold fresh_repository. rewrite K. cbn [initial files].
  rewrite lookup_empty. discriminate.
Qed.

(** X15. In a store that can be written ([objects] is a directory, no
    digest path is a directory or protected), the command [test_blob]
    stores its three blobs, reads each back equal and prints
    [Content matches: true] three times, nothing on [std::cerr]; the first
    and the third hash are equal when no second passed between them. *)
Theorem test_blob_in_usable_store
    (std_hash : string -> N) (mkdir_throws : bool) (pause2 pause3 : Z)
    (rest : list string) (w : Proc) :
  store_usable w ->
  let h1 := simple_hash_at std_hash (clock w) test_content1 in
  let h2 := simple_hash_at std_hash (clock w + pause2) test_content2 in
  let h3 := simple_hash_at std_hash (clock w + pause2 + pause3) test_content1 in
  let run := main std_hash mkdir_throws pause2 pause3 ("test_blob" :: rest) w in
  fst run = Value 0%Z /\
  log (snd run) = (log w ++ test_blob_lines h1 h2 h3)%list /\
  errors (snd run) = errors w /\
  files (snd run) =
    <[blob_path h3 := File test_content1]>
      (<[blob_path h2 := File test_content2]>
         (<[blob_path h1 := File test_content1]> (files w))) /\
  ((pause2 + pause3 = 0)%Z -> h3 = h1).
Proof.
  intros Hu. cbv zeta. unfold main.
  change (String.eqb "test_blob" "init") with false.
  change (String.eqb "test_blob" "test_blob") with true. cbv beta iota.
  rewrite bind_run. unfold test_blob.
  rewrite bind_run, cout_run. cbv beta iota.
  rewrite bind_run, test_one_blob_stored by exact Hu. cbv beta iota.
  set (w1 := stored _ _ _).
  assert (store_usable w1) as Hu1 by (apply store_usable_stored; exact Hu).
  rewrite bind_run, cout_run. cbv beta iota.
  rewrite bind_run, clock_advances_run. cbv beta iota.
  rewrite bind_run, test_one_blob_stored by exact Hu1. cbv beta iota.
  set (w2 := stored _ _ _).
  assert (store_usable w2) as Hu2 by (apply store_usable_stored; exact Hu1).
  rewrite bind_run, cout_run. cbv beta iota.
  rewrite bind_run, clock_advances_run. cbv beta iota.
  rewrite bind_run, test_one_blob_stored by exact Hu2. cbv beta iota.
  set (w3 := stored _ _ _).
  rewrite cout_run. cbv beta iota. rewrite mret_run. cbn [fst snd].
  subst w3 w2 w1. through_test_blob.
  split; [reflexivity|]. split; [|split; [|split]].
  - rewrite <- !app_assoc. reflexivity.
  - unfold errors. through_test_blob. rewrite <- !app_assoc.
    apply errors_app_cout. repeat constructor; eauto.
  - reflexivity.
  - intros Hp. do 2 f_equal. lia.
Qed.

Lemma test_blob_in_usable_store_fresh :
  let w := fresh_repository in
  let h1 := simple_hash_at fnv1a (clock w) test_content1 in
  let h2 := simple_hash_at fnv1a (clock w + 1) test_content2 in
  let h3 := simple_hash_at fnv1a (clock w + 1 + 1) test_content1 in
  let run := main fnv1a true 1 1 ["test_blob"] w in
  fst run = Value 0%Z /\
  log (snd run) = (log w ++ test_blob_lines h1 h2 h3)%list /\
  errors (snd run) = errors w /\
  files (snd run) =
    <[blob_path h3 := File test_content1]>
      (<[blob_path h2 := File test_content2]>
         (<[blob_path h1 := File test_content1]> (files w))) /\
  ((1 + 1 = 0)%Z -> h3 = h1).
Proof.
  apply (test_blob_in_usable_store fnv1a true 1 1 [] fresh_repository).
  exact fresh_repository_usable.
Defined.

(** X16. Where there is no [objects] directory, the command [test_blob]
    stores nothing and changes no entry; each of its three blobs gives two
    lines on [std::cerr] and [Content matches: false], and the exit code is
    still 0. *)
Theorem test_blob_without_store
    (std_hash : string -> N) (mkdir_throws : bool) (pause2 pause3 : Z)
    (rest : list string) (w : Proc) :
  is_dir objects_path w = false ->
  files w !! blob_path "" = None ->
  let h1 := simple_hash_at std_hash (clock w) test_content1 in
  let h2 := simple_hash_at std_hash (clock w + pause2) test_content2 in
  let h3 := simple_hash_at std_hash (clock w + pause2 + pause3) test_content1 in
  let run := main std_hash mkdir_throws pause2 pause3 ("test_blob" :: rest) w in
  fst run = Value 0%Z /\
  files (snd run) = files w /\
  log (snd run) = (log w ++ failed_test_blob_lines h1 h2 h3)%list /\
  length (errors (snd run)) = length (errors w) + 6.
Proof.
  intros Ho Hn. cbv zeta. unfold main.
  change (String.eqb "test_blob" "init") with false.
  change (String.eqb "test_blob" "test_blob") with true. cbv beta iota.
  rewrite bind_run. unfold test_blob.
  rewrite bind_run, cout_run. cbv beta iota.
  rewrite bind_run, test_one_blob_not_stored by assumption. cbv beta iota.
  rewrite bind_run, cout_run. cbv beta iota.
  rewrite bind_run, clock_advances_run. cbv beta iota.
  rewrite bind_run, test_one_blob_not_stored by assumption. cbv beta iota.
  rewrite bind_run, cout_run. cbv beta iota.
  rewrite bind_run, clock_advances_run. cbv beta iota.
  rewrite bind_run, test_one_blob_not_stored by assumption. cbv beta iota.
  rewrite cout_run. cbv beta iota. rewrite mret_run. cbn [fst snd].
  unfold errors. through_test_blob.
  split; [reflexivity|]. split; [reflexivity|]. split.
  - rewrite <- !app_assoc. reflexivity.
  - rewrite <- !app_assoc, omap_app, length_app. reflexivity.
Qed.

Lemma test_blob_without_store_empty :
  let w := initial ∅ in
  let h1 := simple_hash_at fnv1a (clock w) test_content1 in
  let h2 := simple_hash_at fnv1a (clock w + 0) test_content2 in
  let h3 := simple_hash_at fnv1a (clock w + 0 + 0) test_content1 in
  let run := main fnv1a true 0 0 ["test_blob"] w in
  fst run = Value 0%Z /\
  files (snd run) = files w /\
  log (snd run) = (log w ++ failed_test_blob_lines h1 h2 h3)%list /\
  length (errors (snd run)) = length (errors w) + 6.
Proof.
  apply (test_blob_without_store fnv1a true 0 0 [] (initial ∅)).
  - reflexivity.
  - apply lookup_empty.
Defined.
